(** * xcalc: the UFL expression interpreter of fenics-calc

    A shallow embedding of [xcalc/interpreter.py].  The interpreter walks a
    UFL expression tree and computes the coefficient vector of the result by
    applying NumPy kernels to the coefficient vectors of the operands.

    What belongs to the interpreter (Eval, coefs_of, space_of, make_function,
    numpy_reshaped, numpy_op_indices, common_sub_element, make_space and the
    two rule tables) is translated definition by definition.  What belongs to
    the libraries it calls is an interface:
    - [NumPy]: the scalar functions behind the ufuncs and the linear algebra
      kernels;
    - [Dolfin]: meshes, the dimension of a space and its dof maps.
    Function vectors live in a store, because [Function(V)] allocates and
    [set_local] writes in place. *)

From stdpp Require Import base list strings numbers.

(** ** Exceptions *)

Inductive exception :=
| KeyError
| AssertionError
| ValueError (msg : string)
| IndexError
| TypeError
| AttributeError
| UnboundLocalError
| RuntimeError
| LinAlgError
| ReferenceError.

(** The names the specification gives to the interpreter's own failures. *)
Definition UnsupportedOperatorError : exception := KeyError.
Definition InconsistentSpaceError : exception := AssertionError.
Definition UnsupportedRankError : exception :=
  ValueError "No spaces for tensor of rank 3 and higher"%string.

(** Messages of the [ValueError]s NumPy raises. *)
Definition broadcast_error : exception :=
  ValueError "operands could not be broadcast together"%string.
Definition reshape_error : exception :=
  ValueError "cannot reshape array"%string.
Definition assign_error : exception :=
  ValueError "shape mismatch in assignment"%string.
Definition unpack_error : exception :=
  ValueError "wrong number of values to unpack"%string.

Inductive outcome (A : Type) :=
| Ok (a : A)
| Raised (e : exception).
Arguments Ok {A} a.
Arguments Raised {A} e.

#[export] Instance outcome_ret : MRet outcome := @Ok.
#[export] Instance outcome_bind : MBind outcome := λ A B f m,
  match m with
  | Ok a => f a
  | Raised e => Raised e
  end.

Definition assert (b : bool) : outcome unit :=
  if b then Ok tt else Raised AssertionError.

(** What one [next] on an iterator does: the iterator is exhausted, its
    body raises, or it yields. *)
Inductive step (A : Type) :=
| Stop
| Fail (e : exception)
| Yield (a : A).
Arguments Stop {A}.
Arguments Fail {A} e.
Arguments Yield {A} a.

(** [map] of a function that may raise: left to right, first failure wins. *)
Fixpoint map_outcome {A B} (f : A → outcome B) (l : list A) : outcome (list B) :=
  match l with
  | [] => Ok []
  | x :: l' => y ← f x; ys ← map_outcome f l'; Ok (y :: ys)
  end.

(** ** UFL elements

    A scalar finite element, and the vector, tensor and mixed elements built
    over sub-elements.  [VectorElement V n] is the element of [n] components
    and [TensorElement V shape] the one with a component per entry of
    [shape]; how UFL's constructors choose [n] and [shape] from their
    arguments is [VectorElement_new] and [TensorElement_new] below. *)

#[warnings="-register-all"]
Inductive element :=
| FiniteElement (family : string) (degree : nat)
| VectorElement (sub_element : element) (dim : nat)
| TensorElement (sub_element : element) (shape : list nat)
| MixedElement (elements : list element).

(** [elm_ == elm] *)
Fixpoint element_eqb (a b : element) : bool :=
  match a, b with
  | FiniteElement f d, FiniteElement f' d' =>
      bool_decide (f = f') && bool_decide (d = d')
  | VectorElement s n, VectorElement s' n' =>
      element_eqb s s' && bool_decide (n = n')
  | TensorElement s sh, TensorElement s' sh' =>
      element_eqb s s' && bool_decide (sh = sh')
  | MixedElement l, MixedElement l' =>
      (fix all2 (l l' : list element) : bool :=
         match l, l' with
         | [], [] => true
         | x :: l, y :: l' => element_eqb x y && all2 l l'
         | _, _ => false
         end) l l'
  | _, _ => false
  end.

(** Number of entries of a tensor of the given shape. *)
Definition shape_size (shape : list nat) : nat := foldr Nat.mul 1 shape.

(** [elm.value_shape()], which is the [ufl_shape] of a Function in the space. *)
Fixpoint value_shape (e : element) : list nat :=
  match e with
  | FiniteElement _ _ => []
  | VectorElement s n => n :: value_shape s
  | TensorElement s sh => sh ++ value_shape s
  | MixedElement l =>
      [ (fix total (l : list element) : nat :=
           match l with
           | [] => 0
           | x :: l => shape_size (value_shape x) + total l
           end) l ]
  end.

(** [elm.sub_elements()]: one sub-element per component. *)
Definition sub_elements (e : element) : list element :=
  match e with
  | FiniteElement _ _ => []
  | VectorElement s n => replicate n s
  | TensorElement s sh => replicate (shape_size sh) s
  | MixedElement l => l
  end.

(** Induction on elements that reaches the members of a mixed element. *)
Section element_induction.
Variable P : element → Prop.
Hypothesis HF : ∀ family degree, P (FiniteElement family degree).
Hypothesis HV : ∀ s n, P s → P (VectorElement s n).
Hypothesis HT : ∀ s sh, P s → P (TensorElement s sh).
Hypothesis HM : ∀ l, Forall P l → P (MixedElement l).

Fixpoint element_nested_ind (e : element) : P e :=
  match e with
  | FiniteElement f d => HF f d
  | VectorElement s n => HV s n (element_nested_ind s)
  | TensorElement s sh => HT s sh (element_nested_ind s)
  | MixedElement l =>
      HM l ((fix all (l : list element) : Forall P l :=
               match l with
               | [] => Forall_nil P
               | x :: l' => Forall_cons P x l' (element_nested_ind x) (all l')
               end) l)
  end.
End element_induction.

(** ** NumPy *)

Inductive unary_ufunc :=
| np_abs | np_sin | np_cos | np_sqrt | np_exp | np_log | np_tan
| np_sinh | np_cosh | np_tanh | np_arcsin | np_arccos | np_arctan.

Inductive binary_ufunc :=
| np_add | np_divide | np_multiply | np_power | np_arctan2.

Inductive ufunc :=
| Unary (u : unary_ufunc)
| Binary (b : binary_ufunc).

(** The values of DIFFERENT_SPACE_RULES. *)
Inductive ds_kernel :=
| np_linalg_inv | np_transpose | lambda_Sym | lambda_Skew | lambda_Deviatoric
| lambda_Cofactor | np_linalg_det | np_trace | np_dot | np_cross | np_outer
| np_inner.

(** An array with its shape; a NumPy scalar is the array of shape [()]. *)
Record ndarray (R : Type) := mk_ndarray { nd_shape : list nat; nd_data : list R }.
Arguments mk_ndarray {R} nd_shape nd_data.
Arguments nd_shape {R} n.
Arguments nd_data {R} n.

Class NumPy := {
  float : Type;
  (** conversion of a Python int met in an operation with floats *)
  of_int : Z → float;
  unary : unary_ufunc → float → float;
  binary : binary_ufunc → float → float → float;
  (** a kernel of DIFFERENT_SPACE_RULES on the logical values of one dof *)
  kernel : ds_kernel → list (ndarray float) → outcome (ndarray float);
}.

(** The store: one coefficient vector per allocated Function. *)
Abbreviation store := (list (list float)).

(** ** UFL operator types

    The keys of the two rule tables, and [OtherOperator] for every UFL type
    that is a key of neither (Grad, Indexed, Constant, ...). *)

Inductive op_kind :=
| Sum | Abs | Division | Product | Power
| Sin | Cos | Sqrt | Exp | Ln | Tan | Sinh | Cosh | Tanh
| Asin | Acos | Atan | Atan2
| Inverse | Transposed | Sym | Skew | Deviatoric | Cofactor
| Determinant | Trace | Dot | Cross | Outer | Inner
| OtherOperator (name : string).

(** Expression which when evaluated end up in the same space as the
    arguments. *)
Definition SAME_SPACE_RULES (k : op_kind) : option ufunc :=
  match k with
  | Sum => Some (Binary np_add)
  | Abs => Some (Unary np_abs)
  | Division => Some (Binary np_divide)
  | Product => Some (Binary np_multiply)
  | Power => Some (Binary np_power)
  | Sin => Some (Unary np_sin)
  | Cos => Some (Unary np_cos)
  | Sqrt => Some (Unary np_sqrt)
  | Exp => Some (Unary np_exp)
  | Ln => Some (Unary np_log)
  | Tan => Some (Unary np_tan)
  | Sinh => Some (Unary np_sinh)
  | Cosh => Some (Unary np_cosh)
  | Tanh => Some (Unary np_tanh)
  | Asin => Some (Unary np_arcsin)
  | Acos => Some (Unary np_arccos)
  | Atan => Some (Unary np_arctan)
  | Atan2 => Some (Binary np_arctan2)
  | _ => None
  end.

(** Expression which when evaluated end up in general in different space
    than the arguments. *)
Definition DIFFERENT_SPACE_RULES (k : op_kind) : option ds_kernel :=
  match k with
  | Inverse => Some np_linalg_inv
  | Transposed => Some np_transpose
  | Sym => Some lambda_Sym
  | Skew => Some lambda_Skew
  | Deviatoric => Some lambda_Deviatoric
  | Cofactor => Some lambda_Cofactor
  | Determinant => Some np_linalg_det
  | Trace => Some np_trace
  | Dot => Some np_dot
  | Cross => Some np_cross
  | Outer => Some np_outer
  | Inner => Some np_inner
  | _ => None
  end.

(** [izip] of the lists [ls]: the tuples of k-th entries, as long as every list has one;
    no tuple at all when there is no list. *)
Fixpoint izip {A} (ls : list (list A)) : list (list A) :=
  match ls with
  | [] => []
  | l :: ls' =>
      match ls' with
      | [] => (λ x, [x]) <$> l
      | _ :: _ => zip_with cons l (izip ls')
      end
  end.

(** ** Dolfin *)

Class Dolfin := {
  Mesh : Type;
  (** [mesh.id()] *)
  mesh_id : Mesh → nat;
  (** [FunctionSpace(mesh, elm).dim()] *)
  space_dim : Mesh → element → nat;
  (** [FunctionSpace(mesh, elm).dofmap().dofs()] *)
  dofmap_dofs : Mesh → element → list nat;
  (** [FunctionSpace(mesh, elm).sub(comp).dofmap().dofs()] *)
  sub_dofmap_dofs : Mesh → element → nat → list nat;
  (** [elm.cell().geometric_dimension()] *)
  geometric_dimension : element → nat;
}.

Section Interpreter.
Context {np : NumPy} {df : Dolfin}.

(** ** Function spaces, Functions and the store *)

Record FunctionSpace := mk_space { mesh : Mesh; ufl_element : element }.

(** [FunctionSpace(mesh, elm)]; both are [None] when [space_of] saw no
    Function, and dolfin refuses a mesh that is not a mesh. *)
Definition FunctionSpace_new (m : option Mesh) (e : option element)
  : outcome FunctionSpace :=
  match m, e with
  | Some m, Some e => Ok (mk_space m e)
  | _, _ => Raised RuntimeError
  end.

Definition num_sub_spaces (V : FunctionSpace) : nat :=
  length (sub_elements (ufl_element V)).

Definition dofs (V : FunctionSpace) : list nat :=
  dofmap_dofs (mesh V) (ufl_element V).

Definition sub_dofs (V : FunctionSpace) (comp : nat) : list nat :=
  sub_dofmap_dofs (mesh V) (ufl_element V) comp.

(** A Function is its space and the address of its coefficient vector. *)
Record Function := mk_function { function_space : FunctionSpace; vector : nat }.

Definition ufl_shape (f : Function) : list nat :=
  value_shape (ufl_element (function_space f)).

(** Computations that read and write the store and may raise. *)
Definition M (A : Type) : Type := store → outcome A * store.

#[export] Instance M_ret : MRet M := λ A a σ, (Ok a, σ).
#[export] Instance M_bind : MBind M := λ A B f m σ,
  match m σ with
  | (Ok a, σ') => f a σ'
  | (Raised e, σ') => (Raised e, σ')
  end.

Definition lift {A} (o : outcome A) : M A := λ σ, (o, σ).

(** [Function(V)]: a fresh vector of zeros. *)
Definition Function_new (V : FunctionSpace) : M Function := λ σ,
  (Ok (mk_function V (length σ)),
   σ ++ [replicate (space_dim (mesh V) (ufl_element V)) (of_int 0)]).

(** [f.vector().get_local()]: a copy of the coefficients. *)
Definition get_local (f : Function) : M (list float) := λ σ,
  match σ !! vector f with
  | Some c => (Ok c, σ)
  | None => (Raised ReferenceError, σ)
  end.

(** [f.vector().set_local(coefs)]: overwrite in place; the sizes must agree. *)
Definition set_local (f : Function) (coefs : list float) : M unit := λ σ,
  match σ !! vector f with
  | Some c =>
      if bool_decide (length coefs = length c)
      then (Ok tt, <[vector f := coefs]> σ)
      else (Raised RuntimeError, σ)
  | None => (Raised ReferenceError, σ)
  end.

(** ** Expressions and evaluated operands *)

Inductive number :=
| PyInt (n : Z)
| PyFloat (x : float).

(** What NumPy makes of a number in a floating point operation. *)
Definition to_float (x : number) : float :=
  match x with
  | PyInt n => of_int n
  | PyFloat x => x
  end.

(** An expression: a Function, a Python number, a UFL scalar constant
    (ScalarValue, IntValue) wrapping a number, or an operator node with its
    [ufl_operands] and [ufl_shape]. *)
#[warnings="-register-all"]
Inductive Expr :=
| Terminal_Function (f : Function)
| Terminal_number (x : number)
| ScalarValue (x : number)
| Operator (kind : op_kind) (ufl_operands : list Expr) (shape : list nat).

(** What [Eval] returns. *)
Inductive value :=
| Fun (f : Function)
| Num (x : number).

(** What [coefs_of] returns and the ufuncs take. *)
Inductive operand :=
| Scalar (x : number)
| Array (a : list float).

(** ** make_function, coefs_of, space_of *)

(** A function in V with coefs *)
Definition make_function (V : FunctionSpace) (coefs : operand) : M Function :=
  f ← Function_new V;
  match coefs with
  | Array a => _ ← set_local f a; mret f
  | Scalar _ => lift (Raised TypeError)
  end.

(** Extract coefficients of f *)
Definition coefs_of (f : value) : M operand :=
  match f with
  | Fun f => a ← get_local f; mret (Array a)
  | Num x => mret (Scalar x)
  end.

(** The loop of [space_of]; [ref] is [(elm, mesh)] once they are set. *)
Fixpoint space_of_loop (ref : option (element * Mesh)) (foos : list value)
  : outcome (option (element * Mesh)) :=
  match foos with
  | [] => Ok ref
  | Num _ :: foos' => space_of_loop ref foos'
  | Fun f :: foos' =>
      let elm_ := ufl_element (function_space f) in
      let mesh_ := mesh (function_space f) in
      match ref with
      | None => space_of_loop (Some (elm_, mesh_)) foos'
      | Some (elm, mesh) =>
          _ ← assert (element_eqb elm_ elm
                      && bool_decide (mesh_id mesh = mesh_id mesh_));
          space_of_loop ref foos'
      end
  end.

(** Extract the function space for representing foos *)
Definition space_of (foos : list value) : outcome FunctionSpace :=
  ref ← space_of_loop None foos;
  FunctionSpace_new (snd <$> ref) (fst <$> ref).

(** ** The ufuncs on coefficient arrays *)

(** Broadcasting of a binary ufunc over scalars and one-dimensional arrays. *)
Definition broadcast (g : float → float → float) (x y : operand)
  : outcome operand :=
  match x, y with
  | Scalar x, Scalar y => Ok (Scalar (PyFloat (g (to_float x) (to_float y))))
  | Scalar x, Array b => Ok (Array (g (to_float x) <$> b))
  | Array a, Scalar y => Ok (Array ((λ u, g u (to_float y)) <$> a))
  | Array a, Array b =>
      if bool_decide (length a = length b) then Ok (Array (zip_with g a b))
      else match a, b with
           | [u], _ => Ok (Array (g u <$> b))
           | _, [v] => Ok (Array ((λ u, g u v) <$> a))
           | _, _ => Raised broadcast_error
           end
  end.

(** The call of a value [op] of SAME_SPACE_RULES on [coefs].  A UFL node has as many
    operands as its ufunc has inputs; any other call is a TypeError here. *)
Definition apply_ufunc (op : ufunc) (coefs : list operand) : outcome operand :=
  match op, coefs with
  | Unary u, [Scalar x] => Ok (Scalar (PyFloat (unary u (to_float x))))
  | Unary u, [Array a] => Ok (Array (unary u <$> a))
  | Binary b, [x; y] => broadcast (binary b) x y
  | _, _ => Raised TypeError
  end.

(** ** common_sub_element, make_space, numpy_op_indices *)

(** [V_, = set(subs)]: the one element all of [subs] are equal to. *)
Definition unpack_single (subs : list element) : outcome element :=
  match subs with
  | [] => Raised unpack_error
  | V_ :: rest =>
      if forallb (element_eqb V_) rest then Ok V_ else Raised unpack_error
  end.

Fixpoint common_sub_element_loop (V : option element)
    (spaces : list FunctionSpace) : outcome (option element) :=
  match spaces with
  | [] => Ok V
  | space :: spaces' =>
      V_ ← (if bool_decide (num_sub_spaces space = 0)
            then Ok (ufl_element space)
            else unpack_single (sub_elements (ufl_element space)));
      _ ← assert (match V with
                  | None => true
                  | Some V => element_eqb V V_
                  end);
      common_sub_element_loop (Some V_) spaces'
  end.

(** V for space which are tensor products of V otherwise fail *)
Definition common_sub_element (spaces : list FunctionSpace)
  : outcome (option element) :=
  common_sub_element_loop None spaces.

(** [VectorElement(family, cell)] with an element for [family].  UFL's
    parameters are (family, cell, degree, dim): the second positional
    argument is the cell, and UFL takes the cell of the element instead;
    with no [dim] given, the vector element has as many components as that
    cell has geometric dimensions. *)
Definition VectorElement_new (family : element) (cell : nat) : element :=
  VectorElement family (geometric_dimension family).

(** [TensorElement(family, cell)] with an element for [family].  UFL's
    parameters are (family, cell, degree, shape): again the second
    positional argument is the cell and is replaced by the cell of the
    element; with no [shape] given, the tensor element is square, of the
    geometric dimension of that cell. *)
Definition TensorElement_new (family : element) (cell : list nat) : element :=
  TensorElement family
    [geometric_dimension family; geometric_dimension family].

(** Tensor product space of right shape *)
Definition make_space (V : element) (shape : list nat) (mesh : Mesh)
  : outcome FunctionSpace :=
  elm ← (if bool_decide (shape = []) then Ok V
         else if bool_decide (length shape = 1)
              then Ok (VectorElement_new V (length shape))
         else if bool_decide (length shape = 2)
              then Ok (TensorElement_new V shape)
         else Raised UnsupportedRankError);
  FunctionSpace_new (Some mesh) (Some elm).

(** An index into a coefficient array: one dof, or the list of the dofs of
    the components of one logical value. *)
Inductive index :=
| At (i : nat)
| Fancy (l : list nat).

(** Iterator over dofs of V in a logical way *)
Definition numpy_op_indices (V : FunctionSpace) (shape : list nat)
  : outcome (list index) :=
  let nsubs := num_sub_spaces V in
  if bool_decide (nsubs ≠ 0) then
    _ ← assert (bool_decide (length shape ≠ 0));
    Ok (Fancy <$> izip (sub_dofs V <$> seq 0 nsubs))
  else
    _ ← assert (bool_decide (length shape = 0));
    Ok (At <$> dofs V).

(** ** NumPy indexing *)

Definition item (a : list float) (i : nat) : outcome float :=
  match a !! i with
  | Some x => Ok x
  | None => Raised IndexError
  end.

(** [a[index]] *)
Definition getitem (a : list float) (i : index) : outcome (ndarray float) :=
  match i with
  | At i => x ← item a i; Ok (mk_ndarray [] [x])
  | Fancy l => xs ← map_outcome (item a) l; Ok (mk_ndarray [length l] xs)
  end.

(** [x.reshape(s)] *)
Definition reshape (s : list nat) (x : ndarray float) : outcome (ndarray float) :=
  if bool_decide (shape_size s = length (nd_data x))
  then Ok (mk_ndarray s (nd_data x))
  else Raised reshape_error.

(** [x.flatten()] *)
Definition flatten (x : ndarray float) : ndarray float :=
  mk_ndarray [length (nd_data x)] (nd_data x).

(** [a[dof] = x] *)
Definition setitem (a : list float) (dof : index) (x : ndarray float)
  : outcome (list float) :=
  match dof with
  | At i =>
      match nd_data x with
      | [v] => if bool_decide (i < length a) then Ok (<[i := v]> a)
               else Raised IndexError
      | _ => Raised assign_error
      end
  | Fancy l =>
      if forallb (λ i, bool_decide (i < length a)) l then
        if bool_decide (length (nd_data x) = length l)
        then Ok (foldl (λ a iv, <[iv.1 := iv.2]> a) a (zip l (nd_data x)))
        else match nd_data x with
             | [v] => Ok (foldl (λ a i, <[i := v]> a) a l)
             | _ => Raised assign_error
             end
      else Raised IndexError
  end.

(** ** numpy_reshaped *)

(** A generator expression built in the loop of [numpy_reshaped].  Python
    takes its indices when it is created and keeps whether the argument had a
    shape (the branch that built it); its body runs only when the result is
    filled, and reads the variables [arg_coefs] and [reshape] of
    [numpy_reshaped] as they are at that time. *)
Record generator := mk_generator { reshaped : bool; pending : list index }.

(** The variables of [numpy_reshaped] the loop over the arguments assigns;
    [None] is a variable not assigned yet.  [reshape] is kept as the default
    [s] of the lambda it is bound to. *)
Record locals := mk_locals {
  arg_coefs : option (list float);
  V : option FunctionSpace;
  reshape_s : option (list nat);
  get_args : list generator;
}.

Definition unbound {A} (x : option A) : outcome A :=
  match x with
  | Some a => Ok a
  | None => Raised UnboundLocalError
  end.

(** One turn of [for arg in args]. *)
Definition loop_body (env : locals) (arg : value) : M locals :=
  c ← coefs_of arg;
  match arg, c with
  | Fun f, Array a =>
      let V := function_space f in
      let shape := ufl_shape f in
      indices ← lift (numpy_op_indices V shape);
      mret (if bool_decide (shape ≠ [])
            then mk_locals (Some a) (Some V) (Some shape)
                   (get_args env ++ [mk_generator true indices])
            else mk_locals (Some a) (Some V) (reshape_s env)
                   (get_args env ++ [mk_generator false indices]))
  | _, _ => lift (Raised AttributeError)
  end.

Fixpoint loop (env : locals) (args : list value) : M locals :=
  match args with
  | [] => mret env
  | arg :: args' => env' ← loop_body env arg; loop env' args'
  end.

(** The body of a generator at one index: [reshape(arg_coefs[index])] or
    [arg_coefs[index]], with the variables as the loop left them. *)
Definition generator_body (env : locals) (g : generator) (i : index)
  : outcome (ndarray float) :=
  if reshaped g then
    s ← unbound (reshape_s env);
    a ← unbound (arg_coefs env);
    x ← getitem a i;
    reshape s x
  else
    a ← unbound (arg_coefs env);
    getitem a i.

(** One [next] of [izip] over the generators: they are advanced in order and
    the first exhausted one ends the iteration. *)
Fixpoint izip_next (env : locals) (gens : list generator)
  : step (list (ndarray float) * list generator) :=
  match gens with
  | [] => Yield ([], [])
  | g :: gens' =>
      match pending g with
      | [] => Stop
      | i :: rest =>
          match generator_body env g i with
          | Raised e => Fail e
          | Ok x =>
              match izip_next env gens' with
              | Stop => Stop
              | Fail e => Fail e
              | Yield (xs, gs) =>
                  Yield (x :: xs, mk_generator (reshaped g) rest :: gs)
              end
          end
      end
  end.

(** [for dof, dof_args in izip(dofs, args): coefs_res[dof] = flat(op(...))] *)
Fixpoint fill (env : locals) (op : ds_kernel) (flat : ndarray float → ndarray float)
    (dofs : list index) (gens : list generator) (coefs_res : list float)
  : outcome (list float) :=
  match dofs with
  | [] => Ok coefs_res
  | dof :: dofs' =>
      match (if gens is [] then Stop else izip_next env gens) with
      | Stop => Ok coefs_res
      | Fail e => Raised e
      | Yield (dof_args, gens') =>
          x ← kernel op dof_args;
          coefs_res' ← setitem coefs_res dof (flat x);
          fill env op flat dofs' gens' coefs_res'
      end
  end.

(** Get the coefs by applying the numpy op to reshaped argument coefficients.
    [args] are the evaluated operands (the first line of the Python function
    is in [Eval], which owns the recursion) and [shape_res] is
    [expr.ufl_shape].  When there is no argument, [V] is unbound where the
    result space is built; otherwise [sub_elm] is an element. *)
Definition numpy_reshaped (args : list value) (shape_res : list nat)
    (op : ds_kernel) : M value :=
  spaces ← lift (map_outcome (λ arg, space_of [arg]) args);
  sub_elm ← lift (common_sub_element spaces);
  env ← loop (mk_locals None None None []) args;
  V ← lift (unbound (V env));
  sub_elm ← lift (unbound sub_elm);
  V_res ← lift (make_space sub_elm shape_res (mesh V));
  dofs ← lift (numpy_op_indices V_res shape_res);
  let flat := if bool_decide (shape_res ≠ []) then flatten else id in
  f0 ← Function_new V_res;
  coefs_res ← get_local f0;
  coefs_res ← lift (fill env op flat dofs (get_args env) coefs_res);
  f ← make_function V_res (Array coefs_res);
  mret (Fun f).

(** ** Eval *)

Fixpoint map_M {A B} (f : A → M B) (l : list A) : M (list B) :=
  match l with
  | [] => mret []
  | x :: l' => y ← f x; ys ← map_M f l'; mret (y :: ys)
  end.

(** [ss_rules[expr_type]] *)
Definition ss_rule (kind : op_kind) : outcome ufunc :=
  match SAME_SPACE_RULES kind with
  | Some op => Ok op
  | None => Raised KeyError
  end.

(** The same-space branch once the operands are evaluated. *)
Definition same_space (kind : op_kind) (args : list value) : M value :=
  op ← lift (ss_rule kind);
  coefs ← map_M coefs_of args;
  V_coefs ← lift (apply_ufunc op coefs);
  V ← lift (space_of args);
  f ← make_function V V_coefs;
  mret (Fun f).

(** This intepreter translates expr into a function object or a number. *)
Fixpoint Eval (expr : Expr) : M value :=
  match expr with
  | Terminal_Function f => mret (Fun f)
  | Terminal_number x => mret (Num x)
  | ScalarValue x => mret (Num x)
  | Operator kind ufl_operands shape =>
      let args :=
        (fix map_Eval (l : list Expr) : M (list value) :=
           match l with
           | [] => mret []
           | e :: l' => v ← Eval e; vs ← map_Eval l'; mret (v :: vs)
           end) ufl_operands in
      match DIFFERENT_SPACE_RULES kind with
      | Some op => args ← args; numpy_reshaped args shape op
      | None => args ← args; same_space kind args
      end
  end.

(** ** Vocabulary of the properties *)

(** Induction on expressions that reaches the operands of a node. *)
Section Expr_induction.
Variable P : Expr → Prop.
Hypothesis HFun : ∀ f, P (Terminal_Function f).
Hypothesis HNum : ∀ x, P (Terminal_number x).
Hypothesis HScalar : ∀ x, P (ScalarValue x).
Hypothesis HOp : ∀ kind ops shape, Forall P ops → P (Operator kind ops shape).

Fixpoint Expr_nested_ind (e : Expr) : P e :=
  match e with
  | Terminal_Function f => HFun f
  | Terminal_number x => HNum x
  | ScalarValue x => HScalar x
  | Operator kind ops shape =>
      HOp kind ops shape
        ((fix all (l : list Expr) : Forall P l :=
            match l with
            | [] => Forall_nil P
            | x :: l' => Forall_cons P x l' (Expr_nested_ind x) (all l')
            end) ops)
  end.
End Expr_induction.

(** A value as the terminal expression it is. *)
Definition as_expr (v : value) : Expr :=
  match v with
  | Fun f => Terminal_Function f
  | Num x => Terminal_number x
  end.

(** A computation is [growing] when the store it leaves extends the store it
    was given: every vector that was there is still there, unchanged. *)
Definition growing {A} (m : M A) : Prop := ∀ σ, σ `prefix_of` (m σ).2.

(** What [coefs_of] returns for a value, given the store. *)
Definition coefs_in (σ : store) (v : value) : option operand :=
  match v with
  | Fun f => Array <$> σ !! vector f
  | Num x => Some (Scalar x)
  end.

(** [f] and [g] pass the assertion of [space_of], [f] being the reference. *)
Definition same_pair (f g : Function) : bool :=
  element_eqb (ufl_element (function_space g)) (ufl_element (function_space f))
  && bool_decide (mesh_id (mesh (function_space f))
                  = mesh_id (mesh (function_space g))).

(** When two arrays can be broadcast together. *)
Definition broadcastable (a b : list float) : Prop :=
  length a = length b ∨ length a = 1 ∨ length b = 1.

(** The variables after one more turn of the loop, for a Function [f] with
    coefficients [a] and indices [indices]. *)
Definition next_locals (env : locals) (f : Function) (a : list float)
    (indices : list index) : locals :=
  if bool_decide (ufl_shape f ≠ [])
  then mk_locals (Some a) (Some (function_space f)) (Some (ufl_shape f))
         (get_args env ++ [mk_generator true indices])
  else mk_locals (Some a) (Some (function_space f)) (reshape_s env)
         (get_args env ++ [mk_generator false indices]).

(** The indices a tensor-shaped space gives for its k-th logical value: the
    k-th dof of every component, in the order of the components. *)
Definition component_dofs (V : FunctionSpace) (k : nat) (idx : list nat) : Prop :=
  Forall2 (λ comp i, sub_dofs V comp !! k = Some i)
    (seq 0 (num_sub_spaces V)) idx.

(** *** The trees UFL builds

    The expression a*u + b*v reaches [Eval] as the tree UFL's operators
    build for it, for a Python int [a] and a Function [u]: a zero factor
    gives UFL's Zero, the factor 1 gives [u] itself, a scalar-valued [u]
    gives the Product of the constant and [u], and a vector- or tensor-valued
    [u] gives the ComponentTensor, over fresh indices, of the Product of the
    constant and [u] Indexed by them.  A sum drops a Zero operand.  (UFL
    stores the operands of a product and of a sum in an order of its own;
    the trees here keep the order written.) *)







(** The Functions among evaluated operands, in their order: what the
    [filter] of [space_of] keeps. *)
Definition Functions (foos : list value) : list Function :=
  omap (λ v, match v with Fun f => Some f | Num _ => None end) foos.

(** The vector of [f] is allocated and has the dimension of its space. *)
Definition stored (σ : store) (f : Function) (c : list float) : Prop :=
  σ !! vector f = Some c
  ∧ length c = space_dim (mesh (function_space f))
                 (ufl_element (function_space f)).

(** How many Functions a successful evaluation allocates: one per same-space
    node and two per different-space node. *)
Fixpoint allocations (e : Expr) : nat :=
  match e with
  | Operator kind ops _ =>
      (fix total (l : list Expr) : nat :=
         match l with
         | [] => 0
         | x :: l' => allocations x + total l'
         end) ops
      + (if DIFFERENT_SPACE_RULES kind is Some _ then 2 else 1)
  | _ => 0
  end.

(** [e] is the scalar element of the space [V]: the element of [V] when it
    has no sub-space, the one element all its sub-elements are otherwise. *)
Definition scalar_element (V : FunctionSpace) (e : element) : Prop :=
  if bool_decide (num_sub_spaces V = 0) then ufl_element V = e
  else sub_elements (ufl_element V) ≠ []
       ∧ Forall (λ s, s = e) (sub_elements (ufl_element V)).

(** The value at dof [i] of an expression of same-space operators: the
    operators applied to the [i]-th coefficients of the Functions and to the
    numbers. *)
Fixpoint pointwise (σ : store) (i : nat) (e : Expr) : option float :=
  match e with
  | Terminal_Function f => c ← σ !! vector f; c !! i
  | Terminal_number x => Some (to_float x)
  | ScalarValue x => Some (to_float x)
  | Operator kind ops _ =>
      match SAME_SPACE_RULES kind, ops with
      | Some (Unary u), [e1] => unary u <$> pointwise σ i e1
      | Some (Binary b), [e1; e2] =>
          x ← pointwise σ i e1; y ← pointwise σ i e2; Some (binary b x y)
      | _, _ => None
      end
  end.

(** A number as an expression: a Python number or a UFL scalar constant. *)
Definition number_expr (e : Expr) (x : number) : Prop :=
  e = Terminal_number x ∨ e = ScalarValue x.

(** The expressions of same-space operators over the space [V]: Functions
    stored in [V], combined by unary and binary same-space operators, where
    one operand of a binary operator may be a number. *)
Inductive in_space (V : FunctionSpace) (σ : store) : Expr → Prop :=
| in_space_Function f c :
    function_space f = V → stored σ f c →
    in_space V σ (Terminal_Function f)
| in_space_unary kind u e shape :
    SAME_SPACE_RULES kind = Some (Unary u) →
    in_space V σ e →
    in_space V σ (Operator kind [e] shape)
| in_space_binary kind b e1 e2 shape :
    SAME_SPACE_RULES kind = Some (Binary b) →
    in_space V σ e1 → in_space V σ e2 →
    in_space V σ (Operator kind [e1; e2] shape)
| in_space_number_left kind b s x e shape :
    SAME_SPACE_RULES kind = Some (Binary b) →
    number_expr s x → in_space V σ e →
    in_space V σ (Operator kind [s; e] shape)
| in_space_number_right kind b e s x shape :
    SAME_SPACE_RULES kind = Some (Binary b) →
    in_space V σ e → number_expr s x →
    in_space V σ (Operator kind [e; s] shape).

(** Two states of the loop of [numpy_reshaped] that differ at most in
    [arg_coefs]. *)
Definition same_generators (env env' : locals) : Prop :=
  V env = V env' ∧ reshape_s env = reshape_s env'
  ∧ get_args env = get_args env'.

(** Two runs of the loop from the store [σ] that raise the same exception or
    end in states that differ at most in [arg_coefs]. *)
Definition loops_agree (σ : store) (r r' : outcome locals * store) : Prop :=
  match r, r' with
  | (Ok env, σ1), (Ok env', σ2) => σ1 = σ ∧ σ2 = σ ∧ same_generators env env'
  | (Raised e, σ1), (Raised e', σ2) => e = e' ∧ σ1 = σ ∧ σ2 = σ
  | _, _ => False
  end.

(** The positions of the coefficient array an index designates. *)
Definition targets (dof : index) : list nat :=
  match dof with
  | At i => [i]
  | Fancy l => l
  end.

(** The entries the assignment [a[dof] = x] writes when NumPy accepts it:
    the value of a scalar at one dof; the values of an array at the dofs of
    an index list of the same length, in order; one value at every dof of
    the list when the array has a single entry. *)
Definition assigned (dof : index) (x : ndarray float) : list (nat * float) :=
  match dof with
  | At i => match nd_data x with [v] => [(i, v)] | _ => [] end
  | Fancy l =>
      if bool_decide (length (nd_data x) = length l) then zip l (nd_data x)
      else match nd_data x with [v] => (λ i, (i, v)) <$> l | _ => [] end
  end.

(** A generator after one [next]. *)
Definition tail_generator (g : generator) : generator :=
  mk_generator (reshaped g) (tail (pending g)).

(** [xs] are the values the generators yield at their k-th [next]. *)
Definition yields (env : locals) (gens : list generator) (k : nat)
    (xs : list (ndarray float)) : Prop :=
  Forall2 (λ g x, ∃ i, pending g !! k = Some i
                       ∧ generator_body env g i = Ok x) gens xs.

End Interpreter.

(** ** An instance to run the interpreter on

    Integers stand for the floats, so that examples compute exactly.  Of the
    kernels only the inner and dot products (of scalars and vectors) are
    given; the ufuncs without an integer counterpart are constant.  Meshes are
    an id and a number of vertices, in the plane (cells of geometric
    dimension 2); spaces carry one dof per vertex and component, numbered
    vertex by vertex as dolfin does. *)

Module Example.

Definition dot_list (x y : list Z) : Z := foldr Z.add 0%Z (zip_with Z.mul x y).

Definition int_kernel (op : ds_kernel) (args : list (ndarray Z))
  : outcome (ndarray Z) :=
  match op, args with
  | np_inner, [x; y] | np_dot, [x; y] =>
      if bool_decide (length (nd_data x) = length (nd_data y))
      then Ok (mk_ndarray [] [dot_list (nd_data x) (nd_data y)])
      else Raised (ValueError "shapes not aligned")
  | _, _ => Raised LinAlgError
  end.

#[export] Instance int_numpy : NumPy := {|
  float := Z;
  of_int := id;
  unary := λ u, match u with np_abs => Z.abs | _ => λ _, 0%Z end;
  binary := λ b, match b with
                 | np_add => Z.add
                 | np_multiply => Z.mul
                 | np_divide => Z.div
                 | np_power => Z.pow
                 | np_arctan2 => λ _ _, 0%Z
                 end;
  kernel := int_kernel;
|}.

Record mesh_data := mk_mesh { id : nat; num_vertices : nat }.

Definition components (e : element) : nat :=
  match sub_elements e with
  | [] => 1
  | subs => length subs
  end.

#[export] Instance vertex_dolfin : Dolfin := {|
  Mesh := mesh_data;
  mesh_id := id;
  space_dim := λ m e, num_vertices m * components e;
  dofmap_dofs := λ m e, seq 0 (num_vertices m * components e);
  sub_dofmap_dofs := λ m e comp,
    (λ v, v * components e + comp) <$> seq 0 (num_vertices m);
  geometric_dimension := λ e, 2;
|}.

Definition P1 : element := FiniteElement "CG" 1.

(** Two meshes of two vertices and one of three. *)
Definition mesh_A : Mesh := mk_mesh 1 2.
Definition mesh_B : Mesh := mk_mesh 2 2.
Definition mesh_C : Mesh := mk_mesh 3 3.

(** Scalar Functions: [f], [f2] on mesh A, [g] on mesh B, [h] on mesh C. *)
Definition f : Function := mk_function (mk_space mesh_A P1) 0.
Definition f2 : Function := mk_function (mk_space mesh_A P1) 1.
Definition g : Function := mk_function (mk_space mesh_B P1) 1.
Definition h : Function := mk_function (mk_space mesh_C P1) 1.

(** Vector Functions [u], [v] on mesh A. *)
Definition u : Function := mk_function (mk_space mesh_A (VectorElement P1 2)) 0.
Definition v : Function := mk_function (mk_space mesh_A (VectorElement P1 2)) 1.

(** A vector Function [w] on mesh B, in the same element as [u] and [v]. *)
Definition w : Function := mk_function (mk_space mesh_B (VectorElement P1 2)) 1.

Definition store_2_2 : store := [[1; 2]; [10; 20]]%Z.
Definition store_2_3 : store := [[1; 2]; [10; 20; 30]]%Z.
Definition store_4_4 : store := [[1; 2; 3; 4]; [10; 20; 30; 40]]%Z.

End Example.

(** ** An instance with kernels of one operand

    The instance above with the trace and the transpose of a matrix, given
    row by row, in place of the inner products. *)

Module Tensor_example.
Import Example.

Definition entry (A : ndarray Z) (n i j : nat) : Z :=
  default 0%Z (nd_data A !! (i * n + j)).

Definition matrix_kernel (op : ds_kernel) (args : list (ndarray Z))
  : outcome (ndarray Z) :=
  match op, args with
  | np_trace, [A] =>
      match nd_shape A with
      | [m; n] =>
          Ok (mk_ndarray []
                [foldr Z.add 0%Z ((λ i, entry A n i i) <$> seq 0 (m `min` n))])
      | _ => Raised (ValueError "diag requires an array of at least two dimensions")
      end
  | np_transpose, [A] =>
      match nd_shape A with
      | [m; n] =>
          Ok (mk_ndarray [n; m] (j ← seq 0 n; i ← seq 0 m; [entry A n i j]))
      | _ => Ok A
      end
  | _, _ => Raised LinAlgError
  end.

Definition matrix_numpy : NumPy := {|
  float := Z;
  of_int := of_int (NumPy := int_numpy);
  unary := unary (NumPy := int_numpy);
  binary := binary (NumPy := int_numpy);
  kernel := matrix_kernel;
|}.

(** A 2 x 2 tensor Function on mesh A: (1 2; 3 4) at the first vertex and
    (5 6; 7 8) at the second. *)
Definition t : Function := mk_function (mk_space mesh_A (TensorElement P1 [2; 2])) 0.
Definition store_8 : list (list Z) := [[1; 2; 3; 4; 5; 6; 7; 8]]%Z.

End Tensor_example.

(** * Properties *)

#[export] Existing Instances M_ret M_bind.

(** ** Equality of elements *)

Lemma element_eqb_refl (e : element) : element_eqb e e = true.
Proof.
  induction e as [f d|s n IH|s sh IH|l IH] using element_nested_ind; simpl.
  - by rewrite !bool_decide_eq_true_2.
  - by rewrite IH, bool_decide_eq_true_2.
  - by rewrite IH, bool_decide_eq_true_2.
  - induction IH as [|x l Hx _ IHl]; [done|]. by rewrite Hx, IHl.
Qed.

Lemma element_eqb_eq (a b : element) : element_eqb a b = true → a = b.
Proof.
  revert b.
  induction a as [f d|s n IH|s sh IH|l IH] using element_nested_ind;
    intros [f' d'|s' n'|s' sh'|l']; simpl; try discriminate.
  - intros [Hf Hd]%andb_prop.
    apply bool_decide_eq_true_1 in Hf, Hd. by subst.
  - intros [Hs Hn]%andb_prop.
    apply bool_decide_eq_true_1 in Hn. by rewrite (IH _ Hs), Hn.
  - intros [Hs Hn]%andb_prop.
    apply bool_decide_eq_true_1 in Hn. by rewrite (IH _ Hs), Hn.
  - intros Hall. f_equal. revert l' Hall.
    induction IH as [|x l Hx _ IHl]; intros [|y l']; try discriminate; [done|].
    intros [Hxy Hl]%andb_prop. by rewrite (Hx _ Hxy), (IHl _ Hl).
Qed.

Lemma element_eqb_neq (a b : element) : a ≠ b → element_eqb a b = false.
Proof.
  intros Hne. destruct (element_eqb a b) eqn:E; [|done].
  by apply element_eqb_eq in E.
Qed.

Section Facts.
Context {np : NumPy} {df : Dolfin}.

(** The operator case of [Eval], with the operands evaluated by [map_M]. *)
Lemma Eval_Operator kind ops shape :
  Eval (Operator kind ops shape) =
  match DIFFERENT_SPACE_RULES kind with
  | Some op => args ← map_M Eval ops; numpy_reshaped args shape op
  | None => args ← map_M Eval ops; same_space kind args
  end.
Proof.
  simpl.
  assert ((fix map_Eval (l : list Expr) : M (list value) :=
             match l with
             | [] => mret []
             | e :: l' => v ← Eval e; vs ← map_Eval l'; mret (v :: vs)
             end) ops = map_M Eval ops) as ->; [|done].
  induction ops as [|e ops IH]; simpl; [done|]. by rewrite IH.
Qed.

(** Running a bind. *)
Lemma bind_run {A B} (m : M A) (f : A → M B) σ :
  (m ≫= f) σ =
  match m σ with
  | (Ok a, σ') => f a σ'
  | (Raised e, σ') => (Raised e, σ')
  end.
Proof. done. Qed.

Lemma bind_lift_Ok {A B} (a : A) (f : A → M B) σ :
  (lift (Ok a) ≫= f) σ = f a σ.
Proof. done. Qed.

Lemma bind_lift_Raised {A B} e (f : A → M B) σ :
  (lift (Raised e) ≫= f) σ = (Raised e, σ).
Proof. done. Qed.

Lemma map_M_cons {A B} (f : A → M B) x l σ :
  map_M f (x :: l) σ =
  match f x σ with
  | (Ok y, σ1) =>
      match map_M f l σ1 with
      | (Ok ys, σ2) => (Ok (y :: ys), σ2)
      | (Raised e, σ2) => (Raised e, σ2)
      end
  | (Raised e, σ1) => (Raised e, σ1)
  end.
Proof.
  simpl. rewrite bind_run. destruct (f x σ) as [[y|e] σ1]; [|done].
  rewrite bind_run. by destruct (map_M f l σ1) as [[ys|e] σ2].
Qed.

Lemma map_M_nil {A B} (f : A → M B) σ : map_M f [] σ = (Ok [], σ).
Proof. done. Qed.

(** ** The store only grows *)

Lemma growing_ret {A} (a : A) : growing (mret a).
Proof. intros σ. done. Qed.

Lemma growing_lift {A} (o : outcome A) : growing (lift o).
Proof. intros σ. done. Qed.

Lemma growing_bind {A B} (m : M A) (f : A → M B) :
  growing m → (∀ a, growing (f a)) → growing (m ≫= f).
Proof.
  intros Hm Hf σ. rewrite bind_run. specialize (Hm σ).
  destruct (m σ) as [[a|e] σ']; simpl in *; [|done].
  etrans; [exact Hm|apply Hf].
Qed.

Lemma growing_get_local f : growing (get_local f).
Proof. intros σ. unfold get_local. by destruct (σ !! vector f). Qed.

Lemma growing_Function_new V : growing (Function_new V).
Proof. intros σ. simpl. by apply prefix_app_r. Qed.

Lemma growing_coefs_of v : growing (coefs_of v).
Proof.
  destruct v; simpl; [|apply growing_ret].
  apply growing_bind; [apply growing_get_local|intros; apply growing_ret].
Qed.

(** [set_local] writes in place, and [make_function] only calls it on the
    Function it has just allocated. *)
Lemma growing_make_function V coefs : growing (make_function V coefs).
Proof.
  intros σ. unfold make_function. rewrite bind_run. simpl.
  destruct coefs as [x|a]; simpl; [by apply prefix_app_r|].
  rewrite bind_run. unfold set_local. simpl.
  rewrite lookup_app_r, Nat.sub_diag by done. simpl.
  case_bool_decide; simpl; [|by apply prefix_app_r].
  replace (length σ) with (length σ + 0) at 1 by lia.
  rewrite insert_app_r. simpl. by apply prefix_app_r.
Qed.

Lemma growing_map_M {A B} (f : A → M B) l :
  Forall (λ x, growing (f x)) l → growing (map_M f l).
Proof.
  induction 1 as [|x l Hx _ IH]; simpl; [apply growing_ret|].
  apply growing_bind; [done|intros y].
  apply growing_bind; [done|intros; apply growing_ret].
Qed.

(** Walks down a chain of binds whose links are known to be growing. *)
Ltac growing_chain :=
  repeat first
    [ apply growing_ret
    | apply growing_lift
    | apply growing_Function_new
    | apply growing_get_local
    | apply growing_coefs_of
    | apply growing_make_function
    | apply growing_bind; [|intros ?] ].

Lemma growing_same_space kind args : growing (same_space kind args).
Proof.
  unfold same_space. growing_chain.
  apply growing_map_M, Forall_forall. intros; apply growing_coefs_of.
Qed.

Lemma growing_loop env args : growing (loop env args).
Proof.
  revert env. induction args as [|arg args IH]; intros env; simpl.
  - apply growing_ret.
  - apply growing_bind; [|done].
    unfold loop_body. apply growing_bind; [apply growing_coefs_of|intros c].
    destruct arg, c; growing_chain.
Qed.

Lemma growing_numpy_reshaped args shape op :
  growing (numpy_reshaped args shape op).
Proof. unfold numpy_reshaped. growing_chain. apply growing_loop. Qed.

Lemma growing_Eval expr : growing (Eval expr).
Proof.
  induction expr as [f|x|x|kind ops shape IH] using Expr_nested_ind;
    try apply growing_ret.
  rewrite Eval_Operator.
  destruct (DIFFERENT_SPACE_RULES kind).
  - apply growing_bind; [by apply growing_map_M|].
    intros; apply growing_numpy_reshaped.
  - apply growing_bind; [by apply growing_map_M|].
    intros; apply growing_same_space.
Qed.

End Facts.

Section Same_space.
Context {np : NumPy} {df : Dolfin}.

(** ** Running the same-space branch *)

Lemma get_local_Some f (σ : store) c :
  σ !! vector f = Some c → get_local f σ = (Ok c, σ).
Proof. intros Hf. unfold get_local. by rewrite Hf. Qed.

Lemma make_function_Array V a (σ : store) :
  length a = space_dim (mesh V) (ufl_element V) →
  make_function V (Array a) σ = (Ok (mk_function V (length σ)), σ ++ [a]).
Proof.
  intros Hlen. unfold make_function. rewrite bind_run. simpl.
  rewrite bind_run. unfold set_local. simpl.
  rewrite lookup_app_r, Nat.sub_diag by done. simpl.
  rewrite length_replicate, bool_decide_eq_true_2 by done.
  replace (length σ) with (length σ + 0) at 2 by lia.
  by rewrite insert_app_r.
Qed.

Lemma coefs_of_run σ v c :
  coefs_in σ v = Some c → coefs_of v σ = (Ok c, σ).
Proof.
  destruct v as [f|x]; simpl.
  - destruct (σ !! vector f) as [a|] eqn:Hf; [|done]. intros [= <-].
    by rewrite bind_run, (get_local_Some _ _ _ Hf).
  - by intros [= <-].
Qed.

Lemma map_coefs_of_run σ args coefs :
  Forall2 (λ v c, coefs_in σ v = Some c) args coefs →
  map_M coefs_of args σ = (Ok coefs, σ).
Proof.
  induction 1 as [|v c args coefs Hv _ IH]; simpl; [done|].
  by rewrite bind_run, (coefs_of_run _ _ _ Hv), bind_run, IH.
Qed.

Lemma same_space_Ok kind op args coefs a V (σ : store) :
  SAME_SPACE_RULES kind = Some op →
  Forall2 (λ v c, coefs_in σ v = Some c) args coefs →
  apply_ufunc op coefs = Ok (Array a) →
  space_of args = Ok V →
  length a = space_dim (mesh V) (ufl_element V) →
  same_space kind args σ = (Ok (Fun (mk_function V (length σ))), σ ++ [a]).
Proof.
  intros Hop Hcoefs Happ HV Hlen. unfold same_space, ss_rule.
  rewrite Hop, bind_lift_Ok, bind_run, (map_coefs_of_run _ _ _ Hcoefs).
  rewrite Happ, bind_lift_Ok, HV, bind_lift_Ok.
  by rewrite bind_run, make_function_Array.
Qed.

(** The kernel runs before the space of the operands is looked at. *)
Lemma same_space_kernel_Raised kind op args coefs e (σ : store) :
  SAME_SPACE_RULES kind = Some op →
  Forall2 (λ v c, coefs_in σ v = Some c) args coefs →
  apply_ufunc op coefs = Raised e →
  same_space kind args σ = (Raised e, σ).
Proof.
  intros Hop Hcoefs Happ. unfold same_space, ss_rule.
  rewrite Hop, bind_lift_Ok, bind_run, (map_coefs_of_run _ _ _ Hcoefs).
  by rewrite Happ, bind_lift_Raised.
Qed.

Lemma same_space_space_Raised kind op args coefs r e (σ : store) :
  SAME_SPACE_RULES kind = Some op →
  Forall2 (λ v c, coefs_in σ v = Some c) args coefs →
  apply_ufunc op coefs = Ok r →
  space_of args = Raised e →
  same_space kind args σ = (Raised e, σ).
Proof.
  intros Hop Hcoefs Happ HV. unfold same_space, ss_rule.
  rewrite Hop, bind_lift_Ok, bind_run, (map_coefs_of_run _ _ _ Hcoefs).
  by rewrite Happ, bind_lift_Ok, HV, bind_lift_Raised.
Qed.

(** ** space_of *)

Lemma space_of_loop_numbers ref pre foos :
  Forall (λ v, ∃ x, v = Num x) pre →
  space_of_loop ref (pre ++ foos) = space_of_loop ref foos.
Proof. induction 1 as [|v pre [x ->] _ IH]; simpl; done. Qed.

(** Once the reference is set, a later Function with another pair raises,
    whatever lies between. *)
Lemma space_of_loop_differs f mid g post :
  same_pair f g = false →
  space_of_loop
    (Some (ufl_element (function_space f), mesh (function_space f)))
    (mid ++ Fun g :: post) = Raised AssertionError.
Proof.
  intros Hfg. induction mid as [|v mid IH]; simpl.
  - unfold same_pair in Hfg. by rewrite Hfg.
  - destruct v as [k|x]; [|done].
    destruct (element_eqb _ _ && bool_decide _); simpl; done.
Qed.

Lemma space_of_differs pre f mid g post :
  Forall (λ v, ∃ x, v = Num x) pre →
  same_pair f g = false →
  space_of (pre ++ Fun f :: mid ++ Fun g :: post) = Raised AssertionError.
Proof.
  intros Hpre Hfg. unfold space_of.
  rewrite space_of_loop_numbers by done. simpl.
  by rewrite space_of_loop_differs.
Qed.

Lemma same_pair_false f g :
  ufl_element (function_space f) ≠ ufl_element (function_space g)
  ∨ mesh_id (mesh (function_space f)) ≠ mesh_id (mesh (function_space g)) →
  same_pair f g = false.
Proof.
  intros [He|Hm]; unfold same_pair.
  - by rewrite element_eqb_neq.
  - rewrite (bool_decide_eq_false_2 _ Hm). apply andb_false_r.
Qed.

Lemma space_of_same f g :
  function_space f = function_space g →
  space_of [Fun f; Fun g] = Ok (function_space f).
Proof.
  intros Hfg. unfold space_of. simpl. rewrite <-Hfg.
  rewrite element_eqb_refl, bool_decide_eq_true_2 by done. simpl.
  by destruct (function_space f).
Qed.

Lemma space_of_number_Function x f :
  space_of [Num x; Fun f] = Ok (function_space f).
Proof. unfold space_of. simpl. by destruct (function_space f). Qed.

End Same_space.

Section Different_space.
Context {np : NumPy} {df : Dolfin}.

(** ** What the loop of numpy_reshaped leaves behind *)

Lemma bind_Ok_inv {A B} (m : M A) (f : A → M B) σ b σ' :
  (m ≫= f) σ = (Ok b, σ') →
  ∃ a σ1, m σ = (Ok a, σ1) ∧ f a σ1 = (Ok b, σ').
Proof.
  rewrite bind_run. destruct (m σ) as [[a|e] σ1]; [|done].
  intros Hf. by exists a, σ1.
Qed.

Lemma lift_Ok_inv {A} (o : outcome A) σ a σ' :
  lift o σ = (Ok a, σ') → o = Ok a ∧ σ' = σ.
Proof. unfold lift. by intros [= -> ->]. Qed.

Lemma loop_body_Ok env arg env' (σ σ' : store) :
  loop_body env arg σ = (Ok env', σ') →
  σ' = σ ∧ ∃ f a indices,
    arg = Fun f ∧ σ !! vector f = Some a
    ∧ numpy_op_indices (function_space f) (ufl_shape f) = Ok indices
    ∧ env' = next_locals env f a indices.
Proof.
  unfold loop_body. destruct arg as [f|x]; simpl; [|done].
  rewrite !bind_run. unfold get_local.
  destruct (σ !! vector f) as [a|] eqn:Hf; [|done]. simpl.
  rewrite bind_run. unfold lift at 1.
  destruct (numpy_op_indices _ _) as [indices|e] eqn:Hi; [|done].
  intros [= <- <-]. split; [done|]. by exists f, a, indices.
Qed.

Lemma loop_app env args1 args2 (σ : store) :
  loop env (args1 ++ args2) σ =
  match loop env args1 σ with
  | (Ok env1, σ1) => loop env1 args2 σ1
  | (Raised e, σ1) => (Raised e, σ1)
  end.
Proof.
  revert env σ. induction args1 as [|arg args1 IH]; intros env σ; simpl.
  - done.
  - rewrite !bind_run. destruct (loop_body env arg σ) as [[env1|e] σ1]; [|done].
    apply IH.
Qed.

Lemma loop_Ok_store env args env' (σ σ' : store) :
  loop env args σ = (Ok env', σ') → σ' = σ.
Proof.
  revert env σ. induction args as [|arg args IH]; intros env σ; simpl.
  - by intros [= _ <-].
  - intros (env1 & σ1 & Hbody & Hloop)%bind_Ok_inv.
    apply loop_body_Ok in Hbody as [-> _]. eauto.
Qed.

(** After the loop, [arg_coefs] and [V] are those of the last argument, and
    so is [reshape] when the last argument has a shape. *)
Lemma loop_last env args g env' (σ σ' : store) :
  loop env (args ++ [Fun g]) σ = (Ok env', σ') →
  ∃ env1 a indices,
    loop env args σ = (Ok env1, σ)
    ∧ σ !! vector g = Some a
    ∧ numpy_op_indices (function_space g) (ufl_shape g) = Ok indices
    ∧ env' = next_locals env1 g a indices.
Proof.
  rewrite loop_app.
  destruct (loop env args σ) as [[env1|e] σ1] eqn:Hloop; [|done].
  pose proof (loop_Ok_store _ _ _ _ _ Hloop) as ->.
  simpl. intros (env2 & σ2 & Hbody & [= <- <-])%bind_Ok_inv.
  apply loop_body_Ok in Hbody as (-> & f & a & indices & [= <-] & Ha & Hi & ->).
  by exists env1, a, indices.
Qed.

Lemma loop_nonempty_is_Function env args arg env' (σ σ' : store) :
  loop env (args ++ [arg]) σ = (Ok env', σ') → ∃ g, arg = Fun g.
Proof.
  rewrite loop_app.
  destruct (loop env args σ) as [[env1|e] σ1]; [|done].
  simpl. intros (env2 & σ2 & Hbody & _)%bind_Ok_inv.
  apply loop_body_Ok in Hbody as (_ & f & _ & _ & -> & _). by exists f.
Qed.

Lemma next_locals_V env f a indices :
  V (next_locals env f a indices) = Some (function_space f).
Proof. unfold next_locals. by case_bool_decide. Qed.

Lemma next_locals_arg_coefs env f a indices :
  arg_coefs (next_locals env f a indices) = Some a.
Proof. unfold next_locals. by case_bool_decide. Qed.

Lemma make_space_mesh (e : element) (shape : list nat) (m : Mesh) W :
  make_space e shape m = Ok W → mesh W = m.
Proof.
  unfold make_space.
  repeat case_bool_decide; simpl; try done; by intros [= <-].
Qed.

Lemma make_function_space V coefs f (σ σ' : store) :
  make_function V coefs σ = (Ok f, σ') → function_space f = V.
Proof.
  unfold make_function.
  intros (f0 & σ1 & [= <- <-] & Hset)%bind_Ok_inv.
  destruct coefs as [x|a]; [done|].
  by apply bind_Ok_inv in Hset as ([] & σ2 & _ & [= <- _]).
Qed.

(** The result of the different-space branch lives on the mesh of the last
    operand: the meshes of the operands are never compared. *)
Lemma numpy_reshaped_mesh args shape op r (σ σ' : store) :
  numpy_reshaped args shape op σ = (Ok r, σ') →
  ∃ f g, r = Fun f ∧ list.last args = Some (Fun g)
         ∧ mesh (function_space f) = mesh (function_space g).
Proof.
  unfold numpy_reshaped.
  intros (spaces & σ1 & [_ ->]%lift_Ok_inv & Hrun)%bind_Ok_inv.
  apply bind_Ok_inv in Hrun as (sub_elm & σ1 & [_ ->]%lift_Ok_inv & Hrun).
  apply bind_Ok_inv in Hrun as (env & σ1 & Hloop & Hrun).
  apply bind_Ok_inv in Hrun as (V1 & σ2 & [HV ->]%lift_Ok_inv & Hrun).
  apply bind_Ok_inv in Hrun as (elm & σ2 & [_ ->]%lift_Ok_inv & Hrun).
  apply bind_Ok_inv in Hrun as (V_res & σ2 & [Hres ->]%lift_Ok_inv & Hrun).
  apply bind_Ok_inv in Hrun as (dofs1 & σ2 & [_ ->]%lift_Ok_inv & Hrun).
  apply bind_Ok_inv in Hrun as (f0 & σ2 & _ & Hrun).
  apply bind_Ok_inv in Hrun as (c0 & σ3 & _ & Hrun).
  apply bind_Ok_inv in Hrun as (c1 & σ4 & _ & Hrun).
  apply bind_Ok_inv in Hrun as (f & σ5 & Hmake & [= <- _]).
  apply make_function_space in Hmake. apply make_space_mesh in Hres.
  destruct args as [|arg args _] using rev_ind.
  { simpl in Hloop. injection Hloop as <- _. done. }
  destruct (loop_nonempty_is_Function _ _ _ _ _ _ Hloop) as [g ->].
  apply loop_last in Hloop as (env1 & a & indices & _ & _ & _ & ->).
  rewrite next_locals_V in HV. unfold unbound in HV. injection HV as <-.
  exists f, g. rewrite last_snoc, Hmake. done.
Qed.

(** ** The logical values the generators yield *)

Lemma izip_lookup {A} (ls : list (list A)) (k : nat) (t : list A) :
  ls ≠ [] →
  Forall2 (λ l x, l !! k = Some x) ls t →
  izip ls !! k = Some t.
Proof.
  intros Hne Hall. induction Hall as [|l x ls t Hx Hall IH]; [done|].
  destruct ls as [|l2 ls].
  - apply Forall2_nil_inv_l in Hall as ->. simpl.
    by rewrite list_lookup_fmap, Hx.
  - change (izip (l :: l2 :: ls)) with (zip_with cons l (izip (l2 :: ls))).
    rewrite lookup_zip_with, Hx, IH by done. done.
Qed.

Lemma numpy_op_indices_tensor V shape indices k idx :
  numpy_op_indices V shape = Ok indices →
  num_sub_spaces V ≠ 0 →
  component_dofs V k idx →
  shape ≠ [] ∧ indices !! k = Some (Fancy idx).
Proof.
  unfold numpy_op_indices, component_dofs. intros Hind Hn Hidx.
  rewrite (bool_decide_eq_true_2 _ Hn) in Hind.
  case_bool_decide as Hshape; [|done]. simpl in Hind. injection Hind as <-.
  split; [by intros ->|].
  rewrite list_lookup_fmap, (izip_lookup _ k idx); [done| |].
  - destruct (num_sub_spaces V); [done|]. simpl. done.
  - by apply Forall2_fmap_l.
Qed.

Lemma numpy_op_indices_scalar V shape indices k i :
  numpy_op_indices V shape = Ok indices →
  num_sub_spaces V = 0 →
  dofs V !! k = Some i →
  shape = [] ∧ indices !! k = Some (At i).
Proof.
  unfold numpy_op_indices. intros Hind Hn Hi.
  rewrite bool_decide_eq_false_2 in Hind by (by intros ?).
  case_bool_decide as Hshape; [|done]. simpl in Hind. injection Hind as <-.
  split; [by apply nil_length_inv|].
  by rewrite list_lookup_fmap, Hi.
Qed.

(** For the last operand of a different-space node (the only one of a unary
    node) the generator yields what it is meant to: for a space with
    sub-spaces, the coefficients at the k-th dof of each component reshaped
    to the shape of the operand; for a scalar space, the coefficient at the
    k-th dof. *)
Lemma last_operand_values env0 args g env (σ σ1 : store) :
  loop env0 (args ++ [Fun g]) σ = (Ok env, σ1) →
  ∃ gen c,
    list.last (get_args env) = Some gen
    ∧ σ !! vector g = Some c
    ∧ (num_sub_spaces (function_space g) ≠ 0 → ∀ k idx,
         component_dofs (function_space g) k idx →
         pending gen !! k = Some (Fancy idx)
         ∧ generator_body env gen (Fancy idx)
           = (x ← getitem c (Fancy idx); reshape (ufl_shape g) x))
    ∧ (num_sub_spaces (function_space g) = 0 → ∀ k i,
         dofs (function_space g) !! k = Some i →
         pending gen !! k = Some (At i)
         ∧ generator_body env gen (At i) = getitem c (At i)).
Proof.
  intros (env1 & c & indices & _ & Hc & Hind & ->)%loop_last.
  exists (mk_generator (bool_decide (ufl_shape g ≠ [])) indices), c.
  unfold next_locals. split; [|split; [done|split]].
  - case_bool_decide; simpl; by rewrite last_snoc.
  - intros Hn k idx Hidx.
    destruct (numpy_op_indices_tensor _ _ _ _ _ Hind Hn Hidx) as [Hs Hk].
    split; [done|]. by rewrite bool_decide_eq_true_2.
  - intros Hn k i Hi.
    destruct (numpy_op_indices_scalar _ _ _ _ _ Hind Hn Hi) as [Hs Hk].
    split; [done|]. rewrite bool_decide_eq_false_2 by (by intros ?). done.
Qed.

(** Every generator, whichever operand it was built for, reads the
    coefficients of the last operand. *)
Lemma generators_read_last_operand env0 args g env (σ σ1 : store) :
  loop env0 (args ++ [Fun g]) σ = (Ok env, σ1) →
  ∃ c, σ !! vector g = Some c ∧ arg_coefs env = Some c.
Proof.
  intros (env1 & c & indices & _ & Hc & _ & ->)%loop_last.
  exists c. by rewrite next_locals_arg_coefs.
Qed.

End Different_space.

Section Claims.
Context {np : NumPy} {df : Dolfin}.

(** C6: [Eval] of a stored Function or of a number returns that very value
    (for a Function: the same space and the same vector address, so no copy)
    and leaves the store as it was (nothing allocated, nothing written);
    evaluating the result once more therefore changes nothing. *)
Theorem Eval_terminal_identity (f : Function) (x : number) (v : value)
    (σ : store) :
  Eval (Terminal_Function f) σ = (Ok (Fun f), σ)
  ∧ Eval (Terminal_number x) σ = (Ok (Num x), σ)
  ∧ (Eval (as_expr v) ≫= λ v', Eval (as_expr v')) σ = Eval (as_expr v) σ
  ∧ Eval (as_expr v) σ = (Ok v, σ).
Proof. repeat split; by destruct v. Qed.

(** C5: [make_space] raises the rank error for every shape of rank 3 or
    more, whatever the element and the mesh. *)
Theorem make_space_rank_3 (V : element) (shape : list nat) (m : Mesh) :
  3 ≤ length shape → make_space V shape m = Raised UnsupportedRankError.
Proof.
  intros Hrank. unfold make_space.
  destruct shape as [|a [|b [|c shape]]]; simpl in Hrank; try lia.
  done.
Qed.

(** What [make_space] builds for the ranks it supports. *)
Lemma make_space_scalar (V : element) (m : Mesh) :
  make_space V [] m = Ok (mk_space m V).
Proof. done. Qed.

Lemma make_space_vector (V : element) (n : nat) (m : Mesh) :
  make_space V [n] m
  = Ok (mk_space m (VectorElement V (geometric_dimension V))).
Proof. done. Qed.

Lemma make_space_matrix (V : element) (r c : nat) (m : Mesh) :
  make_space V [r; c] m
  = Ok (mk_space m (TensorElement V [geometric_dimension V;
                                     geometric_dimension V])).
Proof. done. Qed.

(** The number of sub-spaces is set by the geometric dimension of the cell,
    not by the shape asked for. *)
Lemma make_space_sub_spaces (V : element) (n r c : nat) (m : Mesh) :
  (∃ W, make_space V [n] m = Ok W
        ∧ num_sub_spaces W = geometric_dimension V)
  ∧ (∃ W, make_space V [r; c] m = Ok W
          ∧ num_sub_spaces W = geometric_dimension V * geometric_dimension V).
Proof.
  split; (eexists; split; [done|]); unfold num_sub_spaces; simpl;
    rewrite length_replicate; [done|]. unfold shape_size. simpl. lia.
Qed.



(** A key of SAME_SPACE_RULES is not a key of DIFFERENT_SPACE_RULES. *)
Lemma same_space_not_different kind op :
  SAME_SPACE_RULES kind = Some op → DIFFERENT_SPACE_RULES kind = None.
Proof. by destruct kind. Qed.

Lemma broadcast_Ok g a b :
  broadcastable a b → ∃ r, broadcast g (Array a) (Array b) = Ok r.
Proof.
  intros Hab. simpl. case_bool_decide as Hlen; [by eexists|].
  destruct Hab as [?|[Ha|Hb]]; [done| |].
  - destruct a as [|u [|??]]; try done. by eexists.
  - destruct b as [|v [|??]]; try done.
    destruct a as [|u [|??]]; by eexists.
Qed.

Lemma broadcast_Raised g a b :
  ¬ broadcastable a b →
  broadcast g (Array a) (Array b) = Raised broadcast_error.
Proof.
  intros Hab. unfold broadcastable in Hab. simpl.
  rewrite bool_decide_eq_false_2 by tauto.
  destruct a as [|u [|??]], b as [|v [|??]]; simpl in *; try done; lia.
Qed.

(** C3 (as the code has it): take a same-space node of a binary ufunc over
    two stored Functions whose spaces differ in element or in mesh id.
    [space_of] keeps the pair of the first Function of its argument and
    raises the consistency error at a later Function with another pair.
    [Eval] raises that error when the two coefficient arrays can be
    broadcast together; when they cannot, the ufunc, which runs first,
    raises its own ValueError.  Either way nothing is returned. *)
Theorem Eval_inconsistent_spaces (kind : op_kind) (b : binary_ufunc)
    (f g : Function) (cf cg : list float) (shape : list nat) (σ : store) :
  SAME_SPACE_RULES kind = Some (Binary b) →
  σ !! vector f = Some cf →
  σ !! vector g = Some cg →
  ufl_element (function_space f) ≠ ufl_element (function_space g)
  ∨ mesh_id (mesh (function_space f)) ≠ mesh_id (mesh (function_space g)) →
  (∀ pre mid post, Forall (λ v, ∃ x, v = Num x) pre →
     space_of (pre ++ Fun f :: mid ++ Fun g :: post)
     = Raised InconsistentSpaceError)
  ∧ (broadcastable cf cg →
     Eval (Operator kind [Terminal_Function f; Terminal_Function g] shape) σ
     = (Raised InconsistentSpaceError, σ))
  ∧ (¬ broadcastable cf cg →
     Eval (Operator kind [Terminal_Function f; Terminal_Function g] shape) σ
     = (Raised broadcast_error, σ)).
Proof.
  intros Hop Hf Hg Hdiff. apply same_pair_false in Hdiff.
  assert (Forall2 (λ v c, coefs_in σ v = Some c)
            [Fun f; Fun g] [Array cf; Array cg]) as Hcoefs.
  { repeat constructor; simpl; [by rewrite Hf|by rewrite Hg]. }
  assert (Eval (Operator kind [Terminal_Function f; Terminal_Function g] shape) σ
          = same_space kind [Fun f; Fun g] σ) as ->.
  { rewrite Eval_Operator, (same_space_not_different _ _ Hop). done. }
  split; [|split].
  - intros pre mid post Hpre. by apply space_of_differs.
  - intros [r Hr]%(broadcast_Ok (binary b)).
    eapply same_space_space_Raised; [done..|].
    by apply (space_of_differs [] f [] g []).
  - intros Hr%(broadcast_Raised (binary b)).
    by eapply same_space_kernel_Raised.
Qed.

(** C2 (as the code has it): a node whose operator type is a key of neither
    table never evaluates to a value.  Its operands are evaluated first: if
    they all evaluate, the lookup in the same-space table raises the
    unsupported-operator error; if one of them raises, that exception is the
    outcome. *)
Theorem Eval_unknown_operator (kind : op_kind) (ops : list Expr)
    (shape : list nat) (σ : store) :
  SAME_SPACE_RULES kind = None →
  DIFFERENT_SPACE_RULES kind = None →
  (∃ e σ1, Eval (Operator kind ops shape) σ = (Raised e, σ1))
  ∧ (∀ args σ1, map_M Eval ops σ = (Ok args, σ1) →
       Eval (Operator kind ops shape) σ = (Raised UnsupportedOperatorError, σ1))
  ∧ (∀ e σ1, map_M Eval ops σ = (Raised e, σ1) →
       Eval (Operator kind ops shape) σ = (Raised e, σ1)).
Proof.
  intros Hss Hds. rewrite Eval_Operator, Hds.
  assert (∀ args σ1, same_space kind args σ1
                     = (Raised UnsupportedOperatorError, σ1)) as Hkey.
  { intros args σ1. unfold same_space, ss_rule. by rewrite Hss. }
  split; [|split].
  - rewrite bind_run. destruct (map_M Eval ops σ) as [[args|e] σ1].
    + rewrite Hkey. by eexists _, _.
    + by eexists _, _.
  - intros args σ1 Hargs. by rewrite bind_run, Hargs.
  - intros e σ1 Hargs. by rewrite bind_run, Hargs.
Qed.

(** C8: whatever the expression and whether [Eval] returns or raises, every
    coefficient vector that was in the store before is in the store after,
    at the same address and with the same entries. *)
Theorem Eval_preserves_vectors (expr : Expr) (σ : store) (addr : nat)
    (c : list float) :
  σ !! addr = Some c → (Eval expr σ).2 !! addr = Some c.
Proof.
  intros Hc. eapply prefix_lookup_Some; [exact Hc|apply growing_Eval].
Qed.

Lemma space_of_singleton_Function f : ∃ V, space_of [Fun f] = Ok V.
Proof. by eexists. Qed.

Lemma spaces_of_number (args : list value) (x : number) :
  Num x ∈ args →
  map_outcome (λ arg, space_of [arg]) args = Raised RuntimeError.
Proof.
  induction args as [|arg args IH]; [by intros ?%elem_of_nil|].
  intros [Heq|Hin]%elem_of_cons; [by subst arg|].
  simpl. destruct arg as [f|y]; [|done].
  destruct (space_of_singleton_Function f) as [V ->]. simpl.
  by rewrite (IH Hin).
Qed.

(** C10: when the operands of a different-space node evaluate and one of
    the values is a number, the node does not evaluate: asking for the space
    of that number raises.  A binary same-space node over a number and a
    stored Function does evaluate. *)
Theorem Eval_different_space_number (kind : op_kind) (op : ds_kernel)
    (ops : list Expr) (shape : list nat) (args : list value) (x : number)
    (σ σ1 : store) :
  DIFFERENT_SPACE_RULES kind = Some op →
  map_M Eval ops σ = (Ok args, σ1) →
  Num x ∈ args →
  Eval (Operator kind ops shape) σ = (Raised RuntimeError, σ1)
  ∧ (∀ kind2 b f c sh, SAME_SPACE_RULES kind2 = Some (Binary b) →
       σ !! vector f = Some c →
       length c = space_dim (mesh (function_space f))
                    (ufl_element (function_space f)) →
       ∃ r σ2, Eval (Operator kind2 [ScalarValue x; Terminal_Function f] sh) σ
               = (Ok (Fun r), σ2)).
Proof.
  intros Hds Hargs Hx. split.
  - rewrite Eval_Operator, Hds, bind_run, Hargs.
    unfold numpy_reshaped. by rewrite (spaces_of_number _ _ Hx).
  - intros kind2 b f c sh Hss Hf Hlen.
    rewrite Eval_Operator, (same_space_not_different _ _ Hss).
    eexists _, _.
    apply same_space_Ok with (op := Binary b) (coefs := [Scalar x; Array c])
                             (a := binary b (to_float x) <$> c)
                             (V := function_space f); try done.
    + repeat constructor. simpl. by rewrite Hf.
    + apply space_of_number_Function.
    + by rewrite length_fmap.
Qed.

End Claims.

Section Evaluation.
Context {np : NumPy} {df : Dolfin}.

(** ** Inverting successful runs *)

Lemma coefs_of_store v r (σ σ' : store) : coefs_of v σ = (r, σ') → σ' = σ.
Proof.
  destruct v as [f|x]; simpl; [|by intros [= _ <-]].
  rewrite bind_run. unfold get_local.
  destruct (σ !! vector f); simpl; by intros [= _ <-].
Qed.

Lemma map_M_coefs_of_store args r (σ σ' : store) :
  map_M coefs_of args σ = (r, σ') → σ' = σ.
Proof.
  revert r σ'. induction args as [|v args IH]; intros r σ'.
  - by intros [= _ <-].
  - rewrite map_M_cons. destruct (coefs_of v σ) as [[c|e] σ1] eqn:Hv;
      apply coefs_of_store in Hv as ->; [|by intros [= _ <-]].
    destruct (map_M coefs_of args σ) as [[cs|e] σ2] eqn:Hargs;
      rewrite (IH _ _ eq_refl); by intros [= _ <-].
Qed.

Lemma make_function_Ok_inv V coefs f (σ σ' : store) :
  make_function V coefs σ = (Ok f, σ') →
  ∃ a, coefs = Array a ∧ f = mk_function V (length σ) ∧ σ' = σ ++ [a]
       ∧ length a = space_dim (mesh V) (ufl_element V).
Proof.
  unfold make_function. rewrite bind_run. simpl.
  destruct coefs as [x|a]; [done|].
  rewrite bind_run. unfold set_local. simpl.
  rewrite lookup_app_r, Nat.sub_diag by done. simpl.
  rewrite length_replicate. case_bool_decide as Hlen; [|done].
  replace (length σ) with (length σ + 0) at 2 by lia.
  rewrite insert_app_r. simpl. intros [= <- <-]. by exists a.
Qed.

Lemma same_space_Ok_inv kind args v (σ σ' : store) :
  same_space kind args σ = (Ok v, σ') →
  ∃ op coefs a V,
    SAME_SPACE_RULES kind = Some op
    ∧ map_M coefs_of args σ = (Ok coefs, σ)
    ∧ apply_ufunc op coefs = Ok (Array a)
    ∧ space_of args = Ok V
    ∧ v = Fun (mk_function V (length σ))
    ∧ σ' = σ ++ [a]
    ∧ length a = space_dim (mesh V) (ufl_element V).
Proof.
  unfold same_space, ss_rule.
  intros (op & σ1 & [Hop ->]%lift_Ok_inv & Hrun)%bind_Ok_inv.
  apply bind_Ok_inv in Hrun as (coefs & σ1 & Hcoefs & Hrun).
  pose proof (map_M_coefs_of_store _ _ _ _ Hcoefs) as ->.
  apply bind_Ok_inv in Hrun as (V_coefs & σ1 & [Happ ->]%lift_Ok_inv & Hrun).
  apply bind_Ok_inv in Hrun as (V1 & σ1 & [HV ->]%lift_Ok_inv & Hrun).
  apply bind_Ok_inv in Hrun as (f & σ1 & Hmake & [= <- <-]).
  apply make_function_Ok_inv in Hmake as (a & -> & -> & -> & Hlen).
  destruct (SAME_SPACE_RULES kind) as [op'|] eqn:Hrule; [|done].
  injection Hop as ->. by exists op, coefs, a, V1.
Qed.

Lemma map_M_Eval_values (args : list value) (σ : store) :
  map_M Eval (as_expr <$> args) σ = (Ok args, σ).
Proof.
  induction args as [|v args IH]; [done|].
  rewrite fmap_cons, map_M_cons. destruct v; simpl; by rewrite IH.
Qed.

(** [map_M] stops at the first element that raises. *)
Lemma map_M_first_Raised {A B} (f : A → M B) pre x post ys e (σ σ1 σ2 : store) :
  map_M f pre σ = (Ok ys, σ1) →
  f x σ1 = (Raised e, σ2) →
  map_M f (pre ++ x :: post) σ = (Raised e, σ2).
Proof.
  revert ys σ. induction pre as [|p pre IH]; intros ys σ.
  - intros [= _ <-] Hx. by rewrite app_nil_l, map_M_cons, Hx.
  - rewrite <-app_comm_cons, !map_M_cons.
    destruct (f p σ) as [[y|e'] σ'] eqn:Hp; [|done].
    destruct (map_M f pre σ') as [[ys'|e'] σ''] eqn:Hpre; [|done].
    intros [= _ <-] Hx. by rewrite (IH _ _ Hpre Hx).
Qed.

(** ** The same-space branch on Functions and numbers *)

(** X1: the docstring of [Eval].  For a binary same-space operator and two
    Functions stored in the same space, [Eval] returns a new Function of
    that space whose coefficients are the operator applied, entry by entry,
    to the coefficients of the operands. *)
Theorem Eval_binary_of_Functions (kind : op_kind) (b : binary_ufunc)
    (f g : Function) (cf cg : list float) (shape : list nat) (σ : store) :
  SAME_SPACE_RULES kind = Some (Binary b) →
  function_space f = function_space g →
  stored σ f cf →
  stored σ g cg →
  Eval (Operator kind [Terminal_Function f; Terminal_Function g] shape) σ
  = (Ok (Fun (mk_function (function_space f) (length σ))),
     σ ++ [zip_with (binary b) cf cg]).
Proof.
  intros Hop HV [Hf Hlf] [Hg Hlg].
  rewrite Eval_Operator, (same_space_not_different _ _ Hop).
  apply same_space_Ok with (op := Binary b) (coefs := [Array cf; Array cg]);
    [done| | | |].
  - repeat constructor; simpl; [by rewrite Hf|by rewrite Hg].
  - simpl. rewrite bool_decide_eq_true_2; [done|]. rewrite Hlf, Hlg. by rewrite HV.
  - by apply space_of_same.
  - rewrite length_zip_with, Hlf, Hlg, HV. lia.
Qed.

(** X2: for a unary same-space operator and a stored Function, [Eval]
    returns a new Function of the same space whose coefficients are the
    ufunc of the coefficients of the operand. *)
Theorem Eval_unary_of_Function (kind : op_kind) (u : unary_ufunc)
    (f : Function) (cf : list float) (shape : list nat) (σ : store) :
  SAME_SPACE_RULES kind = Some (Unary u) →
  stored σ f cf →
  Eval (Operator kind [Terminal_Function f] shape) σ
  = (Ok (Fun (mk_function (function_space f) (length σ))),
     σ ++ [unary u <$> cf]).
Proof.
  intros Hop [Hf Hlf].
  rewrite Eval_Operator, (same_space_not_different _ _ Hop).
  apply same_space_Ok with (op := Unary u) (coefs := [Array cf]);
    [done| |done| |].
  - repeat constructor; simpl. by rewrite Hf.
  - unfold space_of. simpl. by destruct (function_space f).
  - by rewrite length_fmap.
Qed.

(** X3: a number on either side of a binary same-space operator is
    broadcast over the coefficients of the Function on the other side, in
    the order of the operands. *)
Theorem Eval_binary_with_number (kind : op_kind) (b : binary_ufunc)
    (x : number) (f : Function) (cf : list float) (shape : list nat)
    (σ : store) :
  SAME_SPACE_RULES kind = Some (Binary b) →
  stored σ f cf →
  Eval (Operator kind [ScalarValue x; Terminal_Function f] shape) σ
  = (Ok (Fun (mk_function (function_space f) (length σ))),
     σ ++ [binary b (to_float x) <$> cf])
  ∧ Eval (Operator kind [Terminal_Function f; ScalarValue x] shape) σ
    = (Ok (Fun (mk_function (function_space f) (length σ))),
       σ ++ [(λ y, binary b y (to_float x)) <$> cf]).
Proof.
  intros Hop [Hf Hlf].
  rewrite !Eval_Operator, (same_space_not_different _ _ Hop). split.
  - apply same_space_Ok with (op := Binary b) (coefs := [Scalar x; Array cf]);
      [done| |done| |].
    + repeat constructor; simpl. by rewrite Hf.
    + apply space_of_number_Function.
    + by rewrite length_fmap.
  - apply same_space_Ok with (op := Binary b) (coefs := [Array cf; Scalar x]);
      [done| |done| |].
    + repeat constructor; simpl. by rewrite Hf.
    + unfold space_of. simpl. by destruct (function_space f).
    + by rewrite length_fmap.
Qed.

(** ** Operator nodes in general *)

Lemma numpy_reshaped_Ok_inv args shape op v (σ σ' : store) :
  numpy_reshaped args shape op σ = (Ok v, σ') →
  ∃ spaces sub_elm env V1 V_res dofs1 res,
    map_outcome (λ arg, space_of [arg]) args = Ok spaces
    ∧ common_sub_element spaces = Ok (Some sub_elm)
    ∧ loop (mk_locals None None None []) args σ = (Ok env, σ)
    ∧ V env = Some V1
    ∧ make_space sub_elm shape (mesh V1) = Ok V_res
    ∧ numpy_op_indices V_res shape = Ok dofs1
    ∧ fill env op (if bool_decide (shape ≠ []) then flatten else id) dofs1
        (get_args env)
        (replicate (space_dim (mesh V_res) (ufl_element V_res)) (of_int 0))
      = Ok res
    ∧ v = Fun (mk_function V_res (S (length σ)))
    ∧ σ' = σ ++ [replicate (space_dim (mesh V_res) (ufl_element V_res))
                   (of_int 0); res]
    ∧ length res = space_dim (mesh V_res) (ufl_element V_res).
Proof.
  unfold numpy_reshaped.
  intros (spaces & σ1 & [Hspaces ->]%lift_Ok_inv & Hrun)%bind_Ok_inv.
  apply bind_Ok_inv in Hrun as (sub_elm & σ1 & [Hsub ->]%lift_Ok_inv & Hrun).
  apply bind_Ok_inv in Hrun as (env & σ1 & Hloop & Hrun).
  pose proof (loop_Ok_store _ _ _ _ _ Hloop) as ->.
  apply bind_Ok_inv in Hrun as (V1 & σ1 & [HV ->]%lift_Ok_inv & Hrun).
  apply bind_Ok_inv in Hrun as (elm & σ1 & [Helm ->]%lift_Ok_inv & Hrun).
  apply bind_Ok_inv in Hrun as (V_res & σ1 & [Hres ->]%lift_Ok_inv & Hrun).
  apply bind_Ok_inv in Hrun as (dofs1 & σ1 & [Hdofs ->]%lift_Ok_inv & Hrun).
  apply bind_Ok_inv in Hrun as (f0 & σ1 & [= <- <-] & Hrun).
  apply bind_Ok_inv in Hrun as (c0 & σ1 & Hget & Hrun).
  unfold get_local in Hget. simpl in Hget.
  rewrite lookup_app_r, Nat.sub_diag in Hget by done.
  simpl in Hget. injection Hget as <- <-.
  apply bind_Ok_inv in Hrun as (res & σ1 & [Hfill ->]%lift_Ok_inv & Hrun).
  apply bind_Ok_inv in Hrun as (f & σ1 & Hmake & [= <- <-]).
  apply make_function_Ok_inv in Hmake as (a & [= <-] & -> & -> & Hlen).
  destruct sub_elm as [sub_elm|]; [|done]. injection Helm as ->.
  destruct (V env) as [V2|] eqn:HVenv; [|done]. injection HV as ->.
  exists spaces, elm, env, V1, V_res, dofs1, res.
  rewrite length_app, Nat.add_comm, <-app_assoc. done.
Qed.

Lemma map_M_Eval_length ops r (σ σ' : store) :
  map_M Eval ops σ = (r, σ') → length σ ≤ length σ'.
Proof.
  intros Hrun. apply prefix_length.
  change σ' with (r, σ').2. rewrite <-Hrun.
  apply growing_map_M, Forall_forall. intros; apply growing_Eval.
Qed.

(** X4: evaluating a node is evaluating its operands, from left to right,
    and then the node over the values they gave: the operands enter only
    through their values and the store they leave. *)
Theorem Eval_operands_first (kind : op_kind) (ops : list Expr)
    (shape : list nat) (args : list value) (σ σ1 : store) :
  map_M Eval ops σ = (Ok args, σ1) →
  Eval (Operator kind ops shape) σ
  = Eval (Operator kind (as_expr <$> args) shape) σ1.
Proof.
  intros Hargs. rewrite !Eval_Operator.
  destruct (DIFFERENT_SPACE_RULES kind);
    by rewrite !bind_run, Hargs, map_M_Eval_values.
Qed.

(** X5: whatever the operator, the operands are evaluated from left to
    right and the first one that raises ends the evaluation of the node with
    its exception; the operands after it are not evaluated. *)
Theorem Eval_operand_raises (kind : op_kind) (pre post : list Expr)
    (e : Expr) (shape : list nat) (vs : list value) (err : exception)
    (σ σ1 σ2 : store) :
  map_M Eval pre σ = (Ok vs, σ1) →
  Eval e σ1 = (Raised err, σ2) →
  Eval (Operator kind (pre ++ e :: post) shape) σ = (Raised err, σ2).
Proof.
  intros Hpre He. rewrite Eval_Operator.
  destruct (DIFFERENT_SPACE_RULES kind);
    by rewrite bind_run, (map_M_first_Raised _ _ _ _ _ _ _ _ _ Hpre He).
Qed.

(** X6: what an operator node evaluates to is never a number and never one
    of the Functions that were there: it is a Function at an address beyond
    the store [Eval] was given, and its vector has the dimension of its
    space. *)
Theorem Eval_operator_result_fresh (kind : op_kind) (ops : list Expr)
    (shape : list nat) (v : value) (σ σ' : store) :
  Eval (Operator kind ops shape) σ = (Ok v, σ') →
  ∃ r c, v = Fun r ∧ length σ ≤ vector r ∧ σ !! vector r = None
         ∧ stored σ' r c.
Proof.
  rewrite Eval_Operator.
  destruct (DIFFERENT_SPACE_RULES kind) as [op|];
    intros (args & σ1 & Hargs & Hrun)%bind_Ok_inv;
    apply map_M_Eval_length in Hargs.
  - apply numpy_reshaped_Ok_inv in Hrun
      as (? & ? & ? & ? & V_res & ? & res
          & _ & _ & _ & _ & _ & _ & _ & -> & -> & Hlen).
    eexists _, res. split; [done|]. simpl. split; [lia|].
    split; [apply lookup_ge_None_2; lia|]. split; [|done]. simpl.
    rewrite lookup_app_r by lia.
    by replace (S (length σ1) - length σ1) with 1 by lia.
  - apply same_space_Ok_inv in Hrun
      as (? & ? & a & V1 & _ & _ & _ & _ & -> & -> & Hlen).
    eexists _, a. split; [done|]. simpl. split; [lia|].
    split; [apply lookup_ge_None_2; lia|]. split; [|done]. simpl.
    by rewrite lookup_app_r, Nat.sub_diag.
Qed.

Lemma map_M_Eval_allocations ops args (σ σ' : store) :
  Forall (λ e, ∀ v σ σ', Eval e σ = (Ok v, σ') →
                         length σ' = length σ + allocations e) ops →
  map_M Eval ops σ = (Ok args, σ') →
  length σ' = length σ
              + (fix total (l : list Expr) : nat :=
                   match l with
                   | [] => 0
                   | x :: l' => allocations x + total l'
                   end) ops.
Proof.
  intros Hall. revert args σ σ'.
  induction Hall as [|e ops He _ IH]; intros args σ σ'.
  - intros [= _ <-]. lia.
  - rewrite map_M_cons. destruct (Eval e σ) as [[v|err] σ1] eqn:Hv; [|done].
    destruct (map_M Eval ops σ1) as [[vs|err] σ2] eqn:Hvs; [|done].
    intros [= _ <-]. rewrite (IH _ _ _ Hvs), (He _ _ _ Hv). lia.
Qed.

(** X7: a successful evaluation allocates one Function for every same-space
    node of the expression and two for every different-space node (the one
    whose vector is read as the initial result, and the result), and nothing
    for the terminals. *)
Theorem Eval_allocations (expr : Expr) (v : value) (σ σ' : store) :
  Eval expr σ = (Ok v, σ') → length σ' = length σ + allocations expr.
Proof.
  revert v σ σ'.
  induction expr as [f|x|x|kind ops shape IH] using Expr_nested_ind;
    intros v σ σ'; try (intros [= _ <-]; simpl; lia).
  rewrite Eval_Operator.
  change (allocations (Operator kind ops shape))
    with ((fix total (l : list Expr) : nat :=
             match l with
             | [] => 0
             | x :: l' => allocations x + total l'
             end) ops
          + (if DIFFERENT_SPACE_RULES kind is Some _ then 2 else 1)).
  destruct (DIFFERENT_SPACE_RULES kind) as [op|];
    intros (args & σ1 & Hargs & Hrun)%bind_Ok_inv;
    apply (map_M_Eval_allocations _ _ _ _ IH) in Hargs.
  - apply numpy_reshaped_Ok_inv in Hrun
      as (? & ? & ? & ? & ? & ? & ?
          & _ & _ & _ & _ & _ & _ & _ & _ & -> & _).
    rewrite length_app. simpl. lia.
  - apply same_space_Ok_inv in Hrun
      as (? & ? & ? & ? & _ & _ & _ & _ & _ & -> & _).
    rewrite length_app. simpl. lia.
Qed.

Lemma space_of_loop_no_Functions ref foos :
  Functions foos = [] → space_of_loop ref foos = Ok ref.
Proof.
  induction foos as [|[f|x] foos IH]; simpl; [done|done|]. apply IH.
Qed.

Lemma space_of_no_Functions foos :
  Functions foos = [] → space_of foos = Raised RuntimeError.
Proof.
  intros Hnone. unfold space_of. by rewrite space_of_loop_no_Functions.
Qed.

(** X8: an operator node whose operands all evaluate to numbers does not
    evaluate, whatever the operator: no Function is there to give the space
    of the result. *)
Theorem Eval_numbers_only (kind : op_kind) (ops : list Expr)
    (shape : list nat) (args : list value) (σ σ1 : store) :
  map_M Eval ops σ = (Ok args, σ1) →
  Functions args = [] →
  ∃ e, Eval (Operator kind ops shape) σ = (Raised e, σ1).
Proof.
  intros Hargs Hnone. rewrite Eval_Operator.
  destruct (DIFFERENT_SPACE_RULES kind) as [op|]; rewrite bind_run, Hargs.
  - destruct args as [|[f|x] args]; [by eexists|done|].
    eexists. unfold numpy_reshaped.
    by rewrite (spaces_of_number _ x) by apply list_elem_of_here.
  - unfold same_space, ss_rule.
    destruct (SAME_SPACE_RULES kind) as [op|]; [|by eexists].
    rewrite bind_lift_Ok, bind_run.
    destruct (map_M coefs_of args σ1) as [[coefs|e] σ2] eqn:Hcoefs;
      apply map_M_coefs_of_store in Hcoefs as ->; [|by eexists].
    destruct (apply_ufunc op coefs) as [r|e]; [|by eexists].
    rewrite bind_lift_Ok, (space_of_no_Functions _ Hnone). by eexists.
Qed.

End Evaluation.

Section Reconciler.
Context {np : NumPy} {df : Dolfin}.

(** ** space_of *)

Lemma same_pair_true f g :
  same_pair f g = true ↔
  ufl_element (function_space g) = ufl_element (function_space f)
  ∧ mesh_id (mesh (function_space g)) = mesh_id (mesh (function_space f)).
Proof.
  unfold same_pair. rewrite andb_true_iff, bool_decide_eq_true. split.
  - intros [He Hm]. by apply element_eqb_eq in He.
  - intros [-> ->]. by rewrite element_eqb_refl.
Qed.

Lemma space_of_loop_reference f foos :
  space_of_loop
    (Some (ufl_element (function_space f), mesh (function_space f))) foos
  = if forallb (same_pair f) (Functions foos)
    then Ok (Some (ufl_element (function_space f), mesh (function_space f)))
    else Raised AssertionError.
Proof.
  induction foos as [|[g|x] foos IH]; simpl; [done| |done].
  fold (same_pair f g). destruct (same_pair f g); simpl; [apply IH|done].
Qed.

Lemma space_of_closed_form foos :
  space_of foos =
  match Functions foos with
  | [] => Raised RuntimeError
  | f :: fs => if forallb (same_pair f) fs then Ok (function_space f)
               else Raised AssertionError
  end.
Proof.
  unfold space_of.
  induction foos as [|[f|x] foos IH]; simpl; [done| |done].
  rewrite space_of_loop_reference.
  destruct (forallb _ _); simpl; [|done]. by destruct (function_space f).
Qed.

Lemma space_of_Ok_spec (foos : list value) (V : FunctionSpace) :
  space_of foos = Ok V ↔
  ∃ f fs, Functions foos = f :: fs
          ∧ V = function_space f
          ∧ ∀ g, g ∈ fs →
              ufl_element (function_space g) = ufl_element (function_space f)
              ∧ mesh_id (mesh (function_space g))
                = mesh_id (mesh (function_space f)).
Proof.
  rewrite space_of_closed_form.
  destruct (Functions foos) as [|f fs]; [split; [done|by intros (?&?&?&_)]|].
  destruct (forallb (same_pair f) fs) eqn:Hall.
  - split.
    + intros [= <-]. exists f, fs. split; [done|]. split; [done|].
      intros g Hg. apply same_pair_true.
      rewrite forallb_forall in Hall. by apply Hall, list_elem_of_In.
    + by intros (f' & fs' & [= <- <-] & -> & _).
  - split; [done|]. intros (f' & fs' & [= <- <-] & _ & Hsame).
    assert (forallb (same_pair f) fs = true) as Htrue; [|congruence].
    apply forallb_forall. intros g Hg%list_elem_of_In.
    by apply same_pair_true, Hsame.
Qed.

(** X9: [space_of] returns a space exactly when its argument holds a
    Function and every later Function has the element and the mesh id of
    the first one; the space is then the one of the first Function.  Numbers
    play no part. *)
Theorem space_of_Ok_iff (foos : list value) (V : FunctionSpace) :
  space_of foos = Ok V ↔
  ∃ f fs, Functions foos = f :: fs
          ∧ V = function_space f
          ∧ ∀ g, g ∈ fs →
              ufl_element (function_space g) = ufl_element (function_space f)
              ∧ mesh_id (mesh (function_space g))
                = mesh_id (mesh (function_space f)).
Proof. apply space_of_Ok_spec. Qed.

(** ** common_sub_element *)

Lemma unpack_single_Ok_iff subs e :
  unpack_single subs = Ok e ↔ subs ≠ [] ∧ Forall (λ s, s = e) subs.
Proof.
  destruct subs as [|s subs]; simpl.
  - split; [done|by intros []].
  - destruct (forallb (element_eqb s) subs) eqn:Hall.
    + split.
      * intros [= <-]. split; [done|]. constructor; [done|].
        apply Forall_forall. intros t Ht. symmetry. apply element_eqb_eq.
        rewrite forallb_forall in Hall. by apply Hall.
      * intros [_ Hsame]. by apply Forall_cons_1 in Hsame as [-> _].
    + split; [done|]. intros [_ Hsame].
      apply Forall_cons_1 in Hsame as [-> Hsame].
      assert (forallb (element_eqb e) subs = true) as Htrue; [|congruence].
      apply forallb_forall. intros t Ht.
      rewrite Forall_forall in Hsame. rewrite (Hsame _ Ht).
      apply element_eqb_refl.
Qed.

(** The element [common_sub_element] takes from one space. *)
Lemma space_scalar_element V e :
  (if bool_decide (num_sub_spaces V = 0) then Ok (ufl_element V)
   else unpack_single (sub_elements (ufl_element V))) = Ok e
  ↔ scalar_element V e.
Proof.
  unfold scalar_element. case_bool_decide.
  - split; [by intros [= ->]|by intros ->].
  - apply unpack_single_Ok_iff.
Qed.

Lemma common_sub_element_loop_Ok_iff acc spaces e :
  common_sub_element_loop acc spaces = Ok (Some e) ↔
  (spaces = [] ∧ acc = Some e)
  ∨ (spaces ≠ [] ∧ (acc = None ∨ acc = Some e)
     ∧ Forall (λ V, scalar_element V e) spaces).
Proof.
  revert acc. induction spaces as [|V spaces IH]; intros acc; simpl.
  - split; [intros [= ->]; by left|]. by intros [[_ ->]|[? _]].
  - pose proof (space_scalar_element V) as HV.
    destruct (if bool_decide (num_sub_spaces V = 0) then _ else _)
      as [V_|err] eqn:Hone; simpl.
    + assert (∀ e, V_ = e ↔ scalar_element V e) as HV_.
      { intros e'. rewrite <-HV. split; [by intros ->|by intros [= ->]]. }
      destruct acc as [a|]; simpl.
      * destruct (element_eqb a V_) eqn:Ha; simpl.
        -- apply element_eqb_eq in Ha as ->. rewrite IH. split.
           ++ intros [[-> [= ->]]|(Hne & [?|[= ->]] & Hall)]; [|done|];
                right; (split; [done|]); (split; [by right|]);
                constructor; try done; by apply HV_.
           ++ intros [[? _]|(_ & [?|[= ->]] & Hall)]; [done..|].
              apply Forall_cons_1 in Hall as [HVe Hall].
              destruct spaces as [|V2 spaces]; [by left|].
              right. split; [done|]. split; [by right|done].
        -- split; [done|]. intros [[? _]|(_ & [?|[= ->]] & Hall)]; [done..|].
           apply Forall_cons_1 in Hall as [HVe%HV_ _]. subst V_.
           by rewrite element_eqb_refl in Ha.
      * rewrite IH. split.
        -- intros [[-> [= ->]]|(Hne & [?|[= ->]] & Hall)]; [|done|];
             right; (split; [done|]); (split; [by left|]);
             constructor; try done; by apply HV_.
        -- intros [[? _]|(_ & _ & Hall)]; [done|].
           apply Forall_cons_1 in Hall as [HVe%HV_ Hall]. subst V_.
           destruct spaces as [|V2 spaces]; [by left|].
           right. split; [done|]. split; [by right|done].
    + split; [done|]. intros [[? _]|(_ & _ & Hall)]; [done|].
      apply Forall_cons_1 in Hall as [HVe%HV _]. done.
Qed.

Lemma common_sub_element_Ok_spec (spaces : list FunctionSpace) (e : element) :
  common_sub_element spaces = Ok (Some e) ↔
  spaces ≠ [] ∧ Forall (λ V, scalar_element V e) spaces.
Proof.
  unfold common_sub_element. rewrite common_sub_element_loop_Ok_iff. split.
  - intros [[_ ?]|(Hne & _ & Hall)]; done.
  - intros [Hne Hall]. right. split; [done|]. split; [by left|done].
Qed.

(** X10: [common_sub_element] returns the element [e] exactly when it is
    given at least one space and [e] is the scalar element of every one of
    them: the element of a space without sub-spaces, the one element shared
    by all the sub-elements of a space with sub-spaces. *)
Theorem common_sub_element_Ok_iff (spaces : list FunctionSpace) (e : element) :
  common_sub_element spaces = Ok (Some e) ↔
  spaces ≠ [] ∧ Forall (λ V, scalar_element V e) spaces.
Proof. apply common_sub_element_Ok_spec. Qed.

Lemma common_sub_element_loop_elements acc spaces spaces' :
  ufl_element <$> spaces = ufl_element <$> spaces' →
  common_sub_element_loop acc spaces = common_sub_element_loop acc spaces'.
Proof.
  revert acc spaces'.
  induction spaces as [|V spaces IH]; intros acc [|V2 spaces']; try done.
  rewrite !fmap_cons. intros [= HV Hrest]. simpl.
  unfold num_sub_spaces. rewrite HV.
  destruct (if bool_decide _ then _ else _) as [V_|err]; simpl; [|done].
  destruct (assert _); simpl; [|done]. by apply IH.
Qed.

(** X11: [common_sub_element] looks at the elements of the spaces only:
    spaces with the same elements, on whatever meshes, give the same
    outcome. *)
Theorem common_sub_element_ignores_meshes (spaces spaces' : list FunctionSpace) :
  ufl_element <$> spaces = ufl_element <$> spaces' →
  common_sub_element spaces = common_sub_element spaces'.
Proof. apply common_sub_element_loop_elements. Qed.

(** ** make_space *)

(** X12: [make_space] builds a space exactly for the shapes of rank 0, 1
    and 2, always on the mesh it is given; for the empty shape the space is
    the one of the element itself. *)
Theorem make_space_Ok_iff (e : element) (shape : list nat) (m : Mesh) :
  (length shape ≤ 2 ↔ ∃ W, make_space e shape m = Ok W)
  ∧ (∀ W, make_space e shape m = Ok W →
          mesh W = m ∧ (shape = [] → ufl_element W = e)).
Proof.
  split.
  - destruct shape as [|a [|b [|c shape]]]; simpl; split;
      try (intros _; by eexists); try lia.
    by intros [W HW].
  - intros W HW. split; [by eapply make_space_mesh|].
    intros ->. by injection HW as <-.
Qed.

Lemma replicated_scalar_element (W : FunctionSpace) (n : nat) (e : element) :
  sub_elements (ufl_element W) = replicate n e → n ≠ 0 →
  scalar_element W e ∧ num_sub_spaces W ≠ 0.
Proof.
  intros Hsubs Hn. unfold scalar_element, num_sub_spaces.
  rewrite Hsubs, length_replicate, bool_decide_eq_false_2 by done.
  split; [|done]. split.
  - destruct n; done.
  - apply list.Forall_forall. by intros s [-> _]%elem_of_replicate.
Qed.

(** X13: the space [make_space] builds over an element without sub-elements,
    whose cell has a positive geometric dimension, is accepted again by the
    reconciler: [common_sub_element] finds the same element in it and
    [numpy_op_indices] takes it with the shape it was built for.  So the
    result of one different-space node can be the operand of another. *)
Theorem make_space_reconciled (e : element) (shape : list nat) (m : Mesh)
    (W : FunctionSpace) :
  sub_elements e = [] →
  geometric_dimension e ≠ 0 →
  make_space e shape m = Ok W →
  common_sub_element [W] = Ok (Some e)
  ∧ ∃ indices, numpy_op_indices W shape = Ok indices.
Proof.
  intros He Hg HW.
  destruct shape as [|a [|b [|c shape]]]; [| | |done]; injection HW as <-.
  - split.
    + apply common_sub_element_Ok_spec. split; [done|]. constructor; [|done].
      unfold scalar_element, num_sub_spaces. simpl. by rewrite He.
    + unfold numpy_op_indices, num_sub_spaces. simpl. rewrite He. by eexists.
  - destruct (replicated_scalar_element
                (mk_space m (VectorElement_new e (length [a])))
                (geometric_dimension e) e) as [Hscalar Hsubs]; [done..|].
    split.
    + apply common_sub_element_Ok_spec. split; [done|]. by constructor.
    + unfold numpy_op_indices.
      rewrite (bool_decide_eq_true_2 _ Hsubs). by eexists.
  - destruct (replicated_scalar_element
                (mk_space m (TensorElement_new e [a; b]))
                (geometric_dimension e * geometric_dimension e) e)
      as [Hscalar Hsubs]; [|nia|].
    { simpl. f_equal. unfold shape_size. simpl. lia. }
    split.
    + apply common_sub_element_Ok_spec. split; [done|]. by constructor.
    + unfold numpy_op_indices.
      rewrite (bool_decide_eq_true_2 _ Hsubs). by eexists.
Qed.

(** ** numpy_op_indices *)

Lemma izip_lookup_inv {A} (ls : list (list A)) (k : nat) (t : list A) :
  izip ls !! k = Some t →
  ls ≠ [] ∧ Forall2 (λ l x, l !! k = Some x) ls t.
Proof.
  revert t. induction ls as [|l ls IH]; intros t; [done|].
  destruct ls as [|l2 ls].
  - simpl. rewrite list_lookup_fmap.
    destruct (l !! k) as [x|] eqn:Hx; [|done]. intros [= <-].
    split; [done|]. by repeat constructor.
  - change (izip (l :: l2 :: ls)) with (zip_with cons l (izip (l2 :: ls))).
    rewrite lookup_zip_with.
    destruct (izip (l2 :: ls) !! k) as [t'|] eqn:Ht;
      destruct (l !! k) as [x|] eqn:Hx; try done.
    intros [= <-].
    split; [done|]. constructor; [done|]. by apply IH.
Qed.

(** X14: the asserts of [numpy_op_indices].  A space with sub-spaces needs
    a non-empty shape and a space without sub-spaces the empty shape; any
    other pairing raises the assertion error, and nothing else makes
    [numpy_op_indices] raise. *)
Theorem numpy_op_indices_asserts (V : FunctionSpace) (shape : list nat) :
  (num_sub_spaces V = 0 ↔ shape = []) ↔
  ∃ indices, numpy_op_indices V shape = Ok indices.
Proof.
  unfold numpy_op_indices.
  case_bool_decide as Hn; case_bool_decide as Hs; simpl.
  - split; [intros [_ H0]; by eexists|].
    intros _. split; [done|]. intros ->. done.
  - split; [|by intros [? ?]]. intros [_ H0].
    destruct shape; [|done]. by specialize (H0 eq_refl).
  - split; [intros _; by eexists|]. intros _.
    apply nil_length_inv in Hs. split; [done|]. intros _. by destruct (decide (num_sub_spaces V = 0)).
  - split; [|by intros [? ?]]. intros [H0 _].
    destruct (decide (num_sub_spaces V = 0)) as [Hz|Hz]; [|done].
    apply H0 in Hz. by subst shape.
Qed.

(** X15: the indices of a space with sub-spaces.  There is a k-th index
    exactly when every component has a k-th dof, and it is the list of these
    dofs in the order of the components; every index is such a list, with
    one entry per sub-space. *)
Theorem numpy_op_indices_components (V : FunctionSpace) (shape : list nat)
    (indices : list index) :
  numpy_op_indices V shape = Ok indices →
  num_sub_spaces V ≠ 0 →
  (∀ k idx, indices !! k = Some (Fancy idx) ↔ component_dofs V k idx)
  ∧ (∀ k i, indices !! k = Some i →
       ∃ idx, i = Fancy idx ∧ length idx = num_sub_spaces V).
Proof.
  intros Hind Hn.
  assert (indices = Fancy <$> izip (sub_dofs V <$> seq 0 (num_sub_spaces V)))
    as ->.
  { unfold numpy_op_indices in Hind.
    rewrite (bool_decide_eq_true_2 _ Hn) in Hind.
    case_bool_decide; [|done]. by injection Hind as <-. }
  split.
  - intros k idx. rewrite list_lookup_fmap. split.
    + destruct (izip _ !! k) as [t|] eqn:Ht; [|done]. intros [= ->].
      apply izip_lookup_inv in Ht as [_ Ht]. by apply Forall2_fmap_l in Ht.
    + intros Hidx. rewrite (izip_lookup _ k idx); [done| |].
      * destruct (num_sub_spaces V); done.
      * by apply Forall2_fmap_l.
  - intros k i. rewrite list_lookup_fmap.
    destruct (izip _ !! k) as [t|] eqn:Ht; [|done]. intros [= <-].
    exists t. split; [done|].
    apply izip_lookup_inv in Ht as [_ Ht%Forall2_length].
    by rewrite length_fmap, length_seq in Ht.
Qed.

(** ** make_function and coefs_of *)

(** X16: [make_function] succeeds exactly when it is given as many
    coefficients as the space has dofs.  The Function it returns is new, is
    in the space asked for, and [coefs_of] reads back the coefficients that
    were given. *)
Theorem make_function_coefs_of (V : FunctionSpace) (a : list float)
    (σ : store) :
  (length a = space_dim (mesh V) (ufl_element V)
   ↔ ∃ f σ1, make_function V (Array a) σ = (Ok f, σ1))
  ∧ (∀ f σ1, make_function V (Array a) σ = (Ok f, σ1) →
       function_space f = V
       ∧ σ !! vector f = None
       ∧ coefs_of (Fun f) σ1 = (Ok (Array a), σ1)).
Proof.
  split.
  - split.
    + intros Hlen. eexists _, _. by apply make_function_Array.
    + intros (f & σ1 & Hmake).
      by apply make_function_Ok_inv in Hmake as (a' & [= <-] & _ & _ & Hlen).
  - intros f σ1 Hmake.
    apply make_function_Ok_inv in Hmake as (a' & [= <-] & -> & -> & Hlen).
    split; [done|]. split; [by apply lookup_ge_None_2|].
    simpl. rewrite bind_run. unfold get_local. simpl.
    by rewrite lookup_app_r, Nat.sub_diag.
Qed.

End Reconciler.

Section Results.
Context {np : NumPy} {df : Dolfin}.

(** ** The space of the result *)

Lemma space_of_one_Function f : space_of [Fun f] = Ok (function_space f).
Proof. unfold space_of. simpl. by destruct (function_space f). Qed.

Lemma spaces_of_Ok_inv args spaces :
  map_outcome (λ arg, space_of [arg]) args = Ok spaces →
  Forall2 (λ arg V, ∃ f, arg = Fun f ∧ V = function_space f) args spaces.
Proof.
  revert spaces. induction args as [|arg args IH]; intros spaces; simpl.
  - intros [= <-]. constructor.
  - destruct arg as [f|x]; [|done]. rewrite space_of_one_Function. simpl.
    destruct (map_outcome _ args) as [Vs|e]; [|done]. simpl. intros [= <-].
    constructor; [by exists f|by apply IH].
Qed.

(** X17: when a same-space node returns, its result is in the space of the
    first Function among the values of its operands, and every Function
    among them has the element and the mesh id of the result. *)
Theorem Eval_same_space_result_space (kind : op_kind) (ops : list Expr)
    (shape : list nat) (args : list value) (r : Function) (σ σ1 σ2 : store) :
  DIFFERENT_SPACE_RULES kind = None →
  map_M Eval ops σ = (Ok args, σ1) →
  Eval (Operator kind ops shape) σ = (Ok (Fun r), σ2) →
  (∃ f fs, Functions args = f :: fs ∧ function_space r = function_space f)
  ∧ ∀ g, g ∈ Functions args →
      ufl_element (function_space g) = ufl_element (function_space r)
      ∧ mesh_id (mesh (function_space g)) = mesh_id (mesh (function_space r)).
Proof.
  intros Hds Hargs. rewrite Eval_Operator, Hds, bind_run, Hargs.
  intros (? & ? & a & V1 & _ & _ & _ & HV & [= ->] & _)%same_space_Ok_inv.
  apply space_of_Ok_spec in HV as (f & fs & Hfs & -> & Hsame). simpl. split.
  - by exists f, fs.
  - rewrite Hfs. intros g [->|Hg]%elem_of_cons; [done|]. by apply Hsame.
Qed.

Lemma operands_scalar_element args spaces e :
  Forall2 (λ arg V, ∃ f, arg = Fun f ∧ V = function_space f) args spaces →
  Forall (λ V, scalar_element V e) spaces →
  Forall (λ v, ∃ f, v = Fun f ∧ scalar_element (function_space f) e) args.
Proof.
  induction 1 as [|v V2 vs Vs (f & -> & ->) _ IH]; [by constructor|].
  intros [Hf Hrest]%Forall_cons_1. constructor; [by exists f|by apply IH].
Qed.

(** X18: when a different-space node returns, every operand has evaluated
    to a Function, all of them have one scalar element [e], and the result
    is in the space that [make_space] builds from [e] and the shape of the
    node on the mesh of the last operand; the meshes of the other operands
    play no part. *)
Theorem Eval_different_space_result_space (kind : op_kind) (op : ds_kernel)
    (ops : list Expr) (shape : list nat) (args : list value) (r : Function)
    (σ σ1 σ2 : store) :
  DIFFERENT_SPACE_RULES kind = Some op →
  map_M Eval ops σ = (Ok args, σ1) →
  Eval (Operator kind ops shape) σ = (Ok (Fun r), σ2) →
  ∃ g e,
    list.last args = Some (Fun g)
    ∧ make_space e shape (mesh (function_space g)) = Ok (function_space r)
    ∧ Forall (λ v, ∃ f, v = Fun f ∧ scalar_element (function_space f) e) args.
Proof.
  intros Hds Hargs. rewrite Eval_Operator, Hds, bind_run, Hargs.
  intros (spaces & e & env & V1 & V_res & ? & ? & Hspaces & Hsub & Hloop & HV
          & Hres & _ & _ & [= ->] & _)%numpy_reshaped_Ok_inv.
  apply spaces_of_Ok_inv in Hspaces.
  apply common_sub_element_Ok_spec in Hsub as [_ Hsub].
  destruct args as [|arg args _] using rev_ind.
  { simpl in Hloop. injection Hloop as <-. done. }
  destruct (loop_nonempty_is_Function _ _ _ _ _ _ Hloop) as [g ->].
  apply loop_last in Hloop as (env1 & a & indices & _ & _ & _ & ->).
  rewrite next_locals_V in HV. injection HV as <-.
  exists g, e. rewrite last_snoc. split; [done|]. split; [done|].
  by eapply operands_scalar_element.
Qed.

(** X23: a different-space node whose shape has rank 3 or more never
    evaluates to a value, whatever its operands are: when everything before
    goes well, [make_space] refuses the shape. *)
Theorem Eval_rank_3_never_returns (kind : op_kind) (op : ds_kernel)
    (ops : list Expr) (shape : list nat) (σ : store) :
  DIFFERENT_SPACE_RULES kind = Some op →
  3 ≤ length shape →
  ∃ e σ1, Eval (Operator kind ops shape) σ = (Raised e, σ1).
Proof.
  intros Hds Hrank.
  destruct (Eval (Operator kind ops shape) σ) as [[v|e] σ1] eqn:HEval;
    [|by eexists _, _].
  rewrite Eval_Operator, Hds in HEval.
  apply bind_Ok_inv in HEval as (args & σ2 & _ & Hrun).
  apply numpy_reshaped_Ok_inv in Hrun
    as (? & ? & ? & ? & ? & ? & ? & _ & _ & _ & _ & Hres & _).
  destruct shape as [|a [|b [|c shape]]]; simpl in Hrank; try lia. done.
Qed.

(** ** Trees of same-space operators *)

Lemma number_expr_Eval s x (σ : store) :
  number_expr s x → Eval s σ = (Ok (Num x), σ).
Proof. by intros [-> | ->]. Qed.

Lemma number_expr_pointwise s x (σ : store) i :
  number_expr s x → pointwise σ i s = Some (to_float x).
Proof. by intros [-> | ->]. Qed.

Lemma stored_prefix f c (σ σ1 : store) :
  stored σ f c → σ `prefix_of` σ1 → stored σ1 f c.
Proof. intros [Hf Hlen] Hpre. split; [by eapply prefix_lookup_Some|done]. Qed.

Lemma space_of_Function_number f x :
  space_of [Fun f; Num x] = Ok (function_space f).
Proof. unfold space_of. simpl. by destruct (function_space f). Qed.

Lemma Eval_in_space V e (σ σ0 : store) :
  in_space V σ e →
  σ `prefix_of` σ0 →
  ∃ r σ1 c,
    Eval e σ0 = (Ok (Fun r), σ1)
    ∧ function_space r = V
    ∧ stored σ1 r c
    ∧ ∀ i, c !! i = pointwise σ i e.
Proof.
  intros He. revert σ0.
  induction He as [f c HV Hf|kind u e shape Hop He IH
                  |kind b e1 e2 shape Hop He1 IH1 He2 IH2
                  |kind b s x e shape Hop Hs He IH
                  |kind b e s x shape Hop He IH Hs]; intros σ0 Hpre.
  - exists f, σ0, c. split; [done|]. split; [done|].
    split; [by eapply stored_prefix|]. intros i. simpl.
    destruct Hf as [-> _]. done.
  - destruct (IH _ Hpre) as (r1 & σ1 & c1 & HEval & Hr1 & [Hc1 Hl1] & Hpt).
    eexists _, _, (unary u <$> c1).
    rewrite Eval_Operator, (same_space_not_different _ _ Hop).
    rewrite bind_run, map_M_cons, HEval, map_M_nil.
    split; [|split; [|split; [split|]]].
    + apply same_space_Ok with (op := Unary u) (coefs := [Array c1]);
        [done| |done|apply space_of_one_Function|by rewrite length_fmap].
      repeat constructor. simpl. by rewrite Hc1.
    + done.
    + simpl. by rewrite lookup_app_r, Nat.sub_diag.
    + simpl. by rewrite length_fmap.
    + intros i. simpl. rewrite Hop, list_lookup_fmap, Hpt. done.
  - destruct (IH1 _ Hpre) as (r1 & σ1 & c1 & HEval1 & Hr1 & Hs1 & Hpt1).
    assert (σ0 `prefix_of` σ1) as Hpre1.
    { change σ1 with (Ok (Fun r1), σ1).2. rewrite <-HEval1. apply growing_Eval. }
    destruct (IH2 σ1) as (r2 & σ2 & c2 & HEval2 & Hr2 & [Hc2 Hl2] & Hpt2);
      [by etrans|].
    assert (σ1 `prefix_of` σ2) as Hpre2.
    { change σ2 with (Ok (Fun r2), σ2).2. rewrite <-HEval2. apply growing_Eval. }
    destruct (stored_prefix _ _ _ _ Hs1 Hpre2) as [Hc1 Hl1].
    eexists _, _, (zip_with (binary b) c1 c2).
    rewrite Eval_Operator, (same_space_not_different _ _ Hop).
    rewrite bind_run, map_M_cons, HEval1, map_M_cons, HEval2, map_M_nil.
    split; [|split; [|split; [split|]]].
    + apply same_space_Ok with (op := Binary b) (coefs := [Array c1; Array c2]).
      * done.
      * repeat constructor; simpl; [by rewrite Hc1|by rewrite Hc2].
      * simpl. rewrite bool_decide_eq_true_2; [done|].
        rewrite Hl1, Hl2. congruence.
      * apply space_of_same. congruence.
      * rewrite length_zip_with, Hl1, Hl2, Hr1, Hr2. lia.
    + done.
    + simpl. by rewrite lookup_app_r, Nat.sub_diag.
    + simpl. rewrite length_zip_with, Hl1, Hl2, Hr1, Hr2. lia.
    + intros i. simpl. rewrite Hop, lookup_zip_with, Hpt1, Hpt2. done.
  - destruct (IH _ Hpre) as (r1 & σ1 & c1 & HEval & Hr1 & [Hc1 Hl1] & Hpt).
    eexists _, _, (binary b (to_float x) <$> c1).
    rewrite Eval_Operator, (same_space_not_different _ _ Hop).
    rewrite bind_run, map_M_cons, (number_expr_Eval _ _ _ Hs).
    rewrite map_M_cons, HEval, map_M_nil.
    split; [|split; [|split; [split|]]].
    + apply same_space_Ok with (op := Binary b) (coefs := [Scalar x; Array c1]);
        [done| |done|apply space_of_number_Function|by rewrite length_fmap].
      repeat constructor. simpl. by rewrite Hc1.
    + done.
    + simpl. by rewrite lookup_app_r, Nat.sub_diag.
    + simpl. by rewrite length_fmap.
    + intros i. simpl.
      rewrite Hop, (number_expr_pointwise _ _ _ _ Hs), list_lookup_fmap, Hpt.
      simpl. by destruct (pointwise σ i e).
  - destruct (IH _ Hpre) as (r1 & σ1 & c1 & HEval & Hr1 & [Hc1 Hl1] & Hpt).
    eexists _, _, ((λ y, binary b y (to_float x)) <$> c1).
    rewrite Eval_Operator, (same_space_not_different _ _ Hop).
    rewrite bind_run, map_M_cons, HEval.
    rewrite map_M_cons, (number_expr_Eval _ _ _ Hs), map_M_nil.
    split; [|split; [|split; [split|]]].
    + apply same_space_Ok with (op := Binary b) (coefs := [Array c1; Scalar x]);
        [done| |done|apply space_of_Function_number|by rewrite length_fmap].
      repeat constructor. simpl. by rewrite Hc1.
    + done.
    + simpl. by rewrite lookup_app_r, Nat.sub_diag.
    + simpl. by rewrite length_fmap.
    + intros i. simpl.
      rewrite Hop, (number_expr_pointwise _ _ _ _ Hs), list_lookup_fmap, Hpt.
      by destruct (pointwise σ i e).
Qed.

(** X19: what the interpreter is for.  An expression built from Functions
    stored in one space [V] by same-space operators, unary or binary, with
    numbers allowed as one operand of a binary operator, evaluates to a
    Function of [V] whose coefficient at every dof is the expression
    computed on the coefficients of the Functions at that dof. *)
Theorem Eval_pointwise (V : FunctionSpace) (e : Expr) (σ : store) :
  in_space V σ e →
  ∃ r σ1 c,
    Eval e σ = (Ok (Fun r), σ1)
    ∧ function_space r = V
    ∧ stored σ1 r c
    ∧ ∀ i, c !! i = pointwise σ i e.
Proof. intros He. by apply Eval_in_space. Qed.

End Results.

Section Late_binding.
Context {np : NumPy} {df : Dolfin}.

(** ** The operands before the last one *)

Lemma loop_body_agree env env' u u' (σ : store) :
  same_generators env env' →
  function_space u = function_space u' →
  is_Some (σ !! vector u) → is_Some (σ !! vector u') →
  loops_agree σ (loop_body env (Fun u) σ) (loop_body env' (Fun u') σ).
Proof.
  intros (HV & Hs & Hg) Hfs [a Ha] [a' Ha']. unfold loop_body. simpl.
  rewrite !bind_run. unfold get_local. rewrite Ha, Ha'. simpl.
  rewrite !bind_run. unfold ufl_shape. rewrite <-Hfs.
  destruct (numpy_op_indices _ _) as [indices|e]; simpl; [|done].
  case_bool_decide; simpl; rewrite ?Hg, ?Hs; done.
Qed.

Lemma loop_agree env env' us us' (σ : store) :
  same_generators env env' →
  Forall2 (λ u u', function_space u = function_space u') us us' →
  Forall (λ u, is_Some (σ !! vector u)) us →
  Forall (λ u, is_Some (σ !! vector u)) us' →
  loops_agree σ (loop env (Fun <$> us) σ) (loop env' (Fun <$> us') σ).
Proof.
  intros Henv Hfs. revert env env' Henv.
  induction Hfs as [|u u' us us' Hu _ IH]; intros env env' Henv Hus Hus'.
  - simpl. done.
  - apply Forall_cons_1 in Hus as [Hsu Hus].
    apply Forall_cons_1 in Hus' as [Hsu' Hus'].
    rewrite !fmap_cons. simpl. rewrite !bind_run.
    pose proof (loop_body_agree _ _ _ _ σ Henv Hu Hsu Hsu') as Hbody.
    destruct (loop_body env (Fun u) σ) as [[env1|e] σ1];
      destruct (loop_body env' (Fun u') σ) as [[env1'|e'] σ1']; try done.
    destruct Hbody as (-> & -> & Henv1). by apply IH.
Qed.

Lemma loop_body_same_generators env env' g (σ : store) :
  same_generators env env' →
  loop_body env (Fun g) σ = loop_body env' (Fun g) σ.
Proof.
  intros (HV & Hs & Hg). unfold loop_body. simpl.
  rewrite !bind_run. destruct (get_local g σ) as [[a|e] σ1]; [|done]. simpl.
  rewrite !bind_run. destruct (lift _ σ1) as [[indices|e] σ2]; [|done].
  by rewrite Hg, Hs.
Qed.

Lemma spaces_of_Functions us :
  map_outcome (λ arg, space_of [arg]) (Fun <$> us) = Ok (function_space <$> us).
Proof.
  induction us as [|u us IH]; [done|].
  rewrite !fmap_cons.
  change (map_outcome (λ arg, space_of [arg]) (Fun u :: (Fun <$> us)))
    with (y ← space_of [Fun u];
          ys ← map_outcome (λ arg, space_of [arg]) (Fun <$> us); Ok (y :: ys)).
  by rewrite space_of_one_Function, IH.
Qed.

Lemma map_M_Eval_Functions us (σ : store) :
  map_M Eval (Terminal_Function <$> us) σ = (Ok (Fun <$> us), σ).
Proof.
  induction us as [|u us IH]; [done|].
  rewrite !fmap_cons, map_M_cons. simpl. by rewrite IH.
Qed.

(** X20: a different-space node of several operands does not read the
    coefficients of any operand but the last.  Replace the operands before
    the last by any stored Functions of the same spaces, whatever their
    coefficients: the node evaluates to the same outcome.  (The generators
    built for the earlier operands read [arg_coefs] when they run, and by
    then [arg_coefs] holds the coefficients of the last operand.) *)
Theorem Eval_different_space_reads_last (kind : op_kind) (op : ds_kernel)
    (us us' : list Function) (g : Function) (shape : list nat) (σ : store) :
  DIFFERENT_SPACE_RULES kind = Some op →
  Forall2 (λ u u', function_space u = function_space u') us us' →
  Forall (λ u, is_Some (σ !! vector u)) us →
  Forall (λ u, is_Some (σ !! vector u)) us' →
  Eval (Operator kind (Terminal_Function <$> (us ++ [g])) shape) σ
  = Eval (Operator kind (Terminal_Function <$> (us' ++ [g])) shape) σ.
Proof.
  intros Hds Hfs Hus Hus'.
  rewrite !Eval_Operator, Hds, !bind_run, !map_M_Eval_Functions.
  unfold numpy_reshaped. rewrite !spaces_of_Functions.
  assert (function_space <$> (us ++ [g]) = function_space <$> (us' ++ [g]))
    as ->.
  { rewrite !fmap_app. f_equal.
    clear Hus Hus'. induction Hfs as [|u u' us us' Hu _ IH]; [done|].
    by rewrite !fmap_cons, Hu, IH. }
  rewrite !bind_lift_Ok.
  destruct (common_sub_element _) as [sub_elm|e]; [|done].
  rewrite !bind_lift_Ok.
  assert (loop (mk_locals None None None []) (Fun <$> (us ++ [g])) σ
          = loop (mk_locals None None None []) (Fun <$> (us' ++ [g])) σ)
    as Hloop.
  { rewrite !fmap_app, !loop_app.
    pose proof (loop_agree (mk_locals None None None [])
                  (mk_locals None None None []) us us' σ) as Hagree.
    destruct (loop _ (Fun <$> us) σ) as [[env1|e] σ1];
      destruct (loop _ (Fun <$> us') σ) as [[env1'|e'] σ1'];
      specialize (Hagree ltac:(done) Hfs Hus Hus'); try done.
    - destruct Hagree as (-> & -> & Henv). simpl.
      rewrite !bind_run. rewrite (loop_body_same_generators _ _ _ _ Henv). done.
    - by destruct Hagree as (-> & -> & ->). }
  by rewrite !bind_run, Hloop.
Qed.

End Late_binding.

Section Filling.
Context {np : NumPy} {df : Dolfin}.

(** ** Assignments into the result array *)

Lemma foldl_insert_length (l : list (nat * float)) (a : list float) :
  length (foldl (λ a iv, <[iv.1 := iv.2]> a) a l) = length a.
Proof.
  revert a. induction l as [|[j w] l IH]; intros a; simpl; [done|].
  by rewrite IH, length_insert.
Qed.

Lemma foldl_insert_other (l : list (nat * float)) (a : list float) (i : nat) :
  i ∉ l.*1 → foldl (λ a iv, <[iv.1 := iv.2]> a) a l !! i = a !! i.
Proof.
  revert a. induction l as [|[j w] l IH]; intros a; simpl; [done|].
  intros [Hij Hi]%not_elem_of_cons.
  rewrite IH by done. by apply list_lookup_insert_ne.
Qed.

Lemma foldl_insert_written (l : list (nat * float)) (a : list float)
    (i : nat) (v : float) :
  NoDup l.*1 → (i, v) ∈ l → i < length a →
  foldl (λ a iv, <[iv.1 := iv.2]> a) a l !! i = Some v.
Proof.
  revert a. induction l as [|[j w] l IH]; intros a; simpl.
  - by intros _ ?%elem_of_nil.
  - intros [Hj Hnd]%list.NoDup_cons [[= -> ->]|Hin]%elem_of_cons Hlen.
    + rewrite foldl_insert_other by done. by apply list_lookup_insert_eq.
    + apply IH; [done..|]. by rewrite length_insert.
Qed.

Lemma setitem_Ok_inv (a a' : list float) (dof : index) (x : ndarray float) :
  setitem a dof x = Ok a' →
  a' = foldl (λ a iv, <[iv.1 := iv.2]> a) a (assigned dof x)
  ∧ (assigned dof x).*1 = targets dof
  ∧ Forall (λ i, i < length a) (targets dof).
Proof.
  destruct dof as [i|l]; simpl.
  - destruct (nd_data x) as [|v [|??]]; try done.
    case_bool_decide; [|done]. intros [= <-]. by repeat constructor.
  - destruct (forallb _ l) eqn:Hall; [|done].
    assert (Forall (λ i, i < length a) l) as Hrange.
    { apply Forall_forall. intros i Hi. rewrite forallb_forall in Hall.
      by apply (bool_decide_eq_true_1 (i < length a)), Hall. }
    case_bool_decide as Hlen.
    + intros [= <-]. split; [done|]. split; [|done]. apply fst_zip. lia.
    + destruct (nd_data x) as [|v [|??]]; try done. intros [= <-].
      split; [by rewrite foldl_fmap|]. split; [|done].
      rewrite <-list_fmap_compose. apply list_fmap_id.
Qed.

(** ** The generators, one [next] at a time *)

Lemma generator_body_tail env g i :
  generator_body env (tail_generator g) i = generator_body env g i.
Proof. done. Qed.

Lemma yields_tail env gens k xs :
  yields env (tail_generator <$> gens) k xs ↔ yields env gens (S k) xs.
Proof.
  unfold yields. rewrite Forall2_fmap_l.
  split; apply Forall2_impl; intros g x (i & Hi & Hx); exists i;
    simpl in *; by rewrite ?lookup_tail in *.
Qed.

Lemma izip_next_Yield_inv env gens xs gens' :
  izip_next env gens = Yield (xs, gens') →
  gens' = tail_generator <$> gens ∧ yields env gens 0 xs.
Proof.
  revert xs gens'. induction gens as [|g gens IH]; intros xs gens'; simpl.
  - intros [= <- <-]. split; [done|constructor].
  - destruct (pending g) as [|i rest] eqn:Hg; [done|].
    destruct (generator_body env g i) as [x|e] eqn:Hx; [|done].
    destruct (izip_next env gens) as [|e|[xs' gs]]; try done.
    intros [= <- <-]. destruct (IH _ _ eq_refl) as [-> Hxs]. split.
    + simpl. f_equal. unfold tail_generator. by rewrite Hg.
    + constructor; [|done]. exists i. by rewrite Hg.
Qed.

Lemma izip_next_not_Stop env gens :
  Forall (λ g, is_Some (pending g !! 0)) gens → izip_next env gens ≠ Stop.
Proof.
  induction 1 as [|g gens [i Hi] _ IH]; simpl; [done|].
  destruct (pending g) as [|j rest]; [done|].
  destruct (generator_body env g j); [|done].
  by destruct (izip_next env gens) as [|e|[xs gs]].
Qed.

(** ** The loop that fills the result *)

Lemma fill_length env op flat dofs gens c res :
  fill env op flat dofs gens c = Ok res → length res = length c.
Proof.
  revert gens c. induction dofs as [|dof dofs IH]; intros gens c; simpl.
  - by intros [= <-].
  - destruct (if gens is [] then Stop else izip_next env gens)
      as [|e|[xs gens']]; [by intros [= <-]|done|].
    destruct (kernel op xs) as [y|e]; [|done]. simpl.
    destruct (setitem c dof (flat y)) as [c'|e] eqn:Hset; [|done]. simpl.
    intros ->%IH. apply setitem_Ok_inv in Hset as [-> _].
    apply foldl_insert_length.
Qed.

Lemma fill_other env op flat dofs gens c res i :
  fill env op flat dofs gens c = Ok res →
  i ∉ dofs ≫= targets → res !! i = c !! i.
Proof.
  revert gens c. induction dofs as [|dof dofs IH]; intros gens c; simpl.
  - by intros [= <-].
  - rewrite not_elem_of_app.
    destruct (if gens is [] then Stop else izip_next env gens)
      as [|e|[xs gens']]; [by intros [= <-]|done|].
    destruct (kernel op xs) as [y|e]; [|done]. simpl.
    destruct (setitem c dof (flat y)) as [c'|e] eqn:Hset; [|done]. simpl.
    intros Hfill [Hdof Hrest]. rewrite (IH _ _ Hfill Hrest).
    apply setitem_Ok_inv in Hset as (-> & Hfst & _).
    apply foldl_insert_other. by rewrite Hfst.
Qed.

Lemma fill_written env op flat dofs gens c res k dof :
  fill env op flat dofs gens c = Ok res →
  gens ≠ [] →
  NoDup (dofs ≫= targets) →
  dofs !! k = Some dof →
  Forall (λ g, is_Some (pending g !! k)) gens →
  ∃ xs y, yields env gens k xs
          ∧ kernel op xs = Ok y
          ∧ ∀ i v, (i, v) ∈ assigned dof (flat y) → res !! i = Some v.
Proof.
  revert k gens c.
  induction dofs as [|d dofs IH]; intros k gens c; [done|]. simpl.
  intros Hfill Hne [Hd [Hdisj Hnd]]%list.NoDup_app Hk Hpending.
  assert (Forall (λ g, is_Some (pending g !! 0)) gens) as Hheads.
  { eapply list.Forall_impl; [exact Hpending|]. intros g [i Hi]. simpl.
    destruct (pending g); [by destruct k|by eexists]. }
  destruct gens as [|g0 gens0]; [done|]. set (gens := g0 :: gens0) in *.
  destruct (izip_next env gens) as [|e|[xs gens']] eqn:Hnext;
    [by apply izip_next_not_Stop in Hnext|done|].
  apply izip_next_Yield_inv in Hnext as [-> Hxs].
  destruct (kernel op xs) as [y|e] eqn:Hy; [|done]. simpl in Hfill.
  destruct (setitem c d (flat y)) as [c'|e] eqn:Hset; [|done]. simpl in Hfill.
  destruct k as [|k].
  - injection Hk as <-. exists xs, y. split; [done|]. split; [done|].
    intros i v Hiv.
    apply setitem_Ok_inv in Hset as (-> & Hfst & Hrange).
    assert (i ∈ targets d) as Hi.
    { rewrite <-Hfst. apply list_elem_of_fmap. by exists (i, v). }
    rewrite (fill_other _ _ _ _ _ _ _ _ Hfill) by (by apply Hdisj).
    apply foldl_insert_written; [by rewrite Hfst|done|].
    rewrite Forall_forall in Hrange. by apply Hrange, list_elem_of_In.
  - destruct (IH k (tail_generator <$> gens) c') as (xs' & y' & Hxs' & Hy' & Hres);
      [done|done|done|done| |].
    { apply Forall_fmap. eapply list.Forall_impl; [exact Hpending|].
      intros g [i Hi]. simpl. rewrite lookup_tail. by eexists. }
    exists xs', y'. split; [by apply yields_tail|]. done.
Qed.

(** ** The coefficients of a different-space result *)

Lemma loop_get_args_nonempty env0 args arg env (σ σ1 : store) :
  loop env0 (args ++ [arg]) σ = (Ok env, σ1) → get_args env ≠ [].
Proof.
  intros Hloop.
  destruct (loop_nonempty_is_Function _ _ _ _ _ _ Hloop) as [g ->].
  apply loop_last in Hloop as (env1 & a & indices & _ & _ & _ & ->).
  unfold next_locals. case_bool_decide; simpl; by destruct (get_args env1).
Qed.

Lemma numpy_reshaped_values args shape op r (σ σ2 : store) :
  numpy_reshaped args shape op σ = (Ok (Fun r), σ2) →
  ∃ env dofs1 res,
    loop (mk_locals None None None []) args σ = (Ok env, σ)
    ∧ numpy_op_indices (function_space r) shape = Ok dofs1
    ∧ σ2 !! vector r = Some res
    ∧ (∀ i, i ∉ dofs1 ≫= targets → i < length res →
            res !! i = Some (of_int 0))
    ∧ (NoDup (dofs1 ≫= targets) → ∀ k dof,
         dofs1 !! k = Some dof →
         Forall (λ g, is_Some (pending g !! k)) (get_args env) →
         ∃ xs y,
           yields env (get_args env) k xs
           ∧ kernel op xs = Ok y
           ∧ ∀ i v,
               (i, v) ∈ assigned dof
                          ((if bool_decide (shape ≠ []) then flatten else id) y) →
               res !! i = Some v).
Proof.
  intros (spaces & e & env & V1 & V_res & dofs1 & res & _ & _ & Hloop & HV & _
          & Hdofs & Hfill & [= ->] & -> & Hlen)%numpy_reshaped_Ok_inv.
  exists env, dofs1, res. split; [done|]. split; [done|]. split; [|split].
  - simpl. rewrite lookup_app_r by lia.
    by replace (S (length σ) - length σ) with 1 by lia.
  - intros i Hi Hlt. rewrite (fill_other _ _ _ _ _ _ _ _ Hfill Hi).
    apply lookup_replicate_2. by rewrite <-Hlen.
  - intros Hnd k dof Hk Hpending.
    eapply fill_written; [exact Hfill| |done..].
    destruct args as [|arg args _] using rev_ind.
    + simpl in Hloop. injection Hloop as <-. done.
    + by eapply loop_get_args_nonempty.
Qed.

(** X21: the coefficients of the result of a different-space node.  When
    the node returns a Function, and no dof is listed twice in the indices of
    its space, then at every position k where the result space has an index
    and every generator a k-th entry, the kernel was applied to the values
    the generators yield there and the result holds its output, flattened
    for a result with a shape, at the dofs of that index.  The entries no
    index designates are zero. *)
Theorem Eval_different_space_values (kind : op_kind) (op : ds_kernel)
    (ops : list Expr) (shape : list nat) (args : list value) (r : Function)
    (σ σ1 σ2 : store) :
  DIFFERENT_SPACE_RULES kind = Some op →
  map_M Eval ops σ = (Ok args, σ1) →
  Eval (Operator kind ops shape) σ = (Ok (Fun r), σ2) →
  ∃ env dofs1 res,
    loop (mk_locals None None None []) args σ1 = (Ok env, σ1)
    ∧ numpy_op_indices (function_space r) shape = Ok dofs1
    ∧ σ2 !! vector r = Some res
    ∧ (∀ i, i ∉ dofs1 ≫= targets → i < length res →
            res !! i = Some (of_int 0))
    ∧ (NoDup (dofs1 ≫= targets) → ∀ k dof,
         dofs1 !! k = Some dof →
         Forall (λ g, is_Some (pending g !! k)) (get_args env) →
         ∃ xs y,
           yields env (get_args env) k xs
           ∧ kernel op xs = Ok y
           ∧ ∀ i v,
               (i, v) ∈ assigned dof
                          ((if bool_decide (shape ≠ []) then flatten else id) y) →
               res !! i = Some v).
Proof.
  intros Hds Hargs. rewrite Eval_Operator, Hds, bind_run, Hargs.
  apply numpy_reshaped_values.
Qed.

(** X22: a different-space node of one operand computes what it is meant
    to.  When it returns, and no dof is listed twice in the indices of the
    result space, then for every k the kernel was applied to the k-th
    logical value of the operand (its coefficients at the k-th index of its
    space, reshaped to its shape when it has one) and the result holds the
    output at the dofs of the k-th index of the result space. *)
Theorem Eval_unary_different_space (kind : op_kind) (op : ds_kernel)
    (f : Function) (c : list float) (shape : list nat) (r : Function)
    (σ σ2 : store) :
  DIFFERENT_SPACE_RULES kind = Some op →
  σ !! vector f = Some c →
  Eval (Operator kind [Terminal_Function f] shape) σ = (Ok (Fun r), σ2) →
  ∃ indices dofs1 res,
    numpy_op_indices (function_space f) (ufl_shape f) = Ok indices
    ∧ numpy_op_indices (function_space r) shape = Ok dofs1
    ∧ σ2 !! vector r = Some res
    ∧ (NoDup (dofs1 ≫= targets) → ∀ k dof i,
         dofs1 !! k = Some dof →
         indices !! k = Some i →
         ∃ x y,
           (if bool_decide (ufl_shape f ≠ [])
            then x0 ← getitem c i; reshape (ufl_shape f) x0
            else getitem c i) = Ok x
           ∧ kernel op [x] = Ok y
           ∧ ∀ p v,
               (p, v) ∈ assigned dof
                          ((if bool_decide (shape ≠ []) then flatten else id) y) →
               res !! p = Some v).
Proof.
  intros Hds Hc. rewrite Eval_Operator, Hds, bind_run. simpl.
  intros (env & dofs1 & res & Hloop & Hdofs & Hres & _ & Hvalues)
           %numpy_reshaped_values.
  apply (loop_last _ []) in Hloop as (env1 & a & indices & [= <-] & Ha & Hind & ->).
  rewrite Hc in Ha. injection Ha as <-.
  exists indices, dofs1, res. split; [done|]. split; [done|]. split; [done|].
  intros Hnd k dof i Hk Hi. specialize (Hvalues Hnd k dof Hk).
  unfold next_locals in Hvalues.
  destruct (bool_decide (ufl_shape f ≠ [])) eqn:Hshape; simpl in Hvalues;
    (destruct Hvalues as (xs & y & Hxs & Hy & Hheld);
       [constructor; [by exists i|constructor]|]);
    apply Forall2_cons_inv_l in Hxs
      as (x & xs' & (j & Hj & Hx) & ->%Forall2_nil_inv_l & ->);
    simpl in Hj; rewrite Hi in Hj; injection Hj as <-;
    exists x, y; (split; [exact Hx|]); split; done.
Qed.

End Filling.

(** * The properties on concrete meshes and Functions *)

Import Example.

Lemma make_space_rank_3_witness :
  3 ≤ length [2; 2; 2]
  ∧ make_space P1 [2; 2; 2] mesh_A = Raised UnsupportedRankError.
Proof.
  split; [simpl; lia|]. apply make_space_rank_3. simpl. lia.
Defined.

(** C1: on a mesh of the plane, [make_space] gives the result space two
    sub-spaces for the shape (3,) and four for the shape (3, 3), where the
    shapes have three and nine entries: the shape it passes to the element
    constructors is taken for the cell, and the element is built with the
    geometric dimension of the cell.  Only for the shapes (2,) and (2, 2)
    does the count agree with the shape. *)
Theorem make_space_ignores_shape :
  (∃ W, make_space P1 [3] mesh_A = Ok W
        ∧ num_sub_spaces W = 2 ∧ shape_size [3] = 3)
  ∧ (∃ W, make_space P1 [3; 3] mesh_A = Ok W
          ∧ num_sub_spaces W = 4 ∧ shape_size [3; 3] = 9)
  ∧ (∃ W, make_space P1 [2] mesh_A = Ok W
          ∧ num_sub_spaces W = 2 ∧ shape_size [2] = 2)
  ∧ (∃ W, make_space P1 [2; 2] mesh_A = Ok W
          ∧ num_sub_spaces W = 4 ∧ shape_size [2; 2] = 4).
Proof. repeat split; by eexists. Qed.



Lemma Eval_inconsistent_spaces_witness :
  Eval (Operator Sum [Terminal_Function f; Terminal_Function g] []) store_2_2
  = (Raised InconsistentSpaceError, store_2_2)
  ∧ Eval (Operator Sum [Terminal_Function f; Terminal_Function h] []) store_2_3
    = (Raised broadcast_error, store_2_3).
Proof.
  split.
  - apply (Eval_inconsistent_spaces (np := int_numpy) (df := vertex_dolfin) Sum np_add f g [1; 2]%Z [10; 20]%Z []
             store_2_2); try reflexivity.
    + right. simpl. lia.
    + left. reflexivity.
  - apply (Eval_inconsistent_spaces (np := int_numpy) (df := vertex_dolfin) Sum np_add f h [1; 2]%Z [10; 20; 30]%Z []
             store_2_3); try reflexivity.
    + right. simpl. lia.
    + unfold broadcastable. simpl. lia.
Defined.

(** The claim C3 fails when the arrays cannot be broadcast together: [f] has
    two coefficients and [h], on another mesh, has three; the sum raises
    NumPy's ValueError and not the consistency error. *)
Lemma Eval_inconsistent_spaces_counterexample :
  SAME_SPACE_RULES Sum = Some (Binary np_add)
  ∧ store_2_3 !! vector f = Some [1; 2]%Z
  ∧ store_2_3 !! vector h = Some [10; 20; 30]%Z
  ∧ mesh_id (mesh (function_space f)) ≠ mesh_id (mesh (function_space h))
  ∧ Eval (Operator Sum [Terminal_Function f; Terminal_Function h] []) store_2_3
    = (Raised broadcast_error, store_2_3)
  ∧ Eval (Operator Sum [Terminal_Function f; Terminal_Function h] []) store_2_3
    ≠ (Raised InconsistentSpaceError, store_2_3).
Proof. repeat split; done. Qed.

Lemma Eval_unknown_operator_witness :
  (∃ e σ1, Eval (Operator (OtherOperator "Grad") [Terminal_Function f] [2])
             store_2_2 = (Raised e, σ1))
  ∧ Eval (Operator (OtherOperator "Grad") [Terminal_Function f] [2]) store_2_2
    = (Raised UnsupportedOperatorError, store_2_2).
Proof.
  destruct (Eval_unknown_operator (np := int_numpy) (df := vertex_dolfin) (OtherOperator "Grad") [Terminal_Function f]
              [2] store_2_2) as (Hfails & Hkey & _); try reflexivity.
  split; [exact Hfails|]. apply (Hkey [Fun f]). reflexivity.
Defined.

(** The claim C2 fails when an operand raises: the gradient of the sum of
    [f] and [g], which live on different meshes, raises the consistency
    error of the sum and not the unsupported-operator error. *)
Lemma Eval_unknown_operator_counterexample :
  SAME_SPACE_RULES (OtherOperator "Grad") = None
  ∧ DIFFERENT_SPACE_RULES (OtherOperator "Grad") = None
  ∧ Eval (Operator (OtherOperator "Grad")
            [Operator Sum [Terminal_Function f; Terminal_Function g] []] [2])
      store_2_2
    = (Raised InconsistentSpaceError, store_2_2)
  ∧ Eval (Operator (OtherOperator "Grad")
            [Operator Sum [Terminal_Function f; Terminal_Function g] []] [2])
      store_2_2
    ≠ (Raised UnsupportedOperatorError, store_2_2).
Proof. repeat split; done. Qed.

Lemma Eval_preserves_vectors_witness :
  store_4_4 !! 0 = Some [1; 2; 3; 4]%Z
  ∧ (Eval (Operator Dot [Terminal_Function u; Terminal_Function v] [])
       store_4_4).2 !! 0 = Some [1; 2; 3; 4]%Z.
Proof.
  split; [reflexivity|].
  apply (Eval_preserves_vectors (np := int_numpy) (df := vertex_dolfin)).
  reflexivity.
Defined.

Lemma Eval_different_space_number_witness :
  Eval (Operator Inner [Terminal_Function f; ScalarValue (PyInt 2)] [])
    store_2_2
  = (Raised RuntimeError, store_2_2)
  ∧ ∃ r σ2, Eval (Operator Product [ScalarValue (PyInt 2); Terminal_Function f] [])
              store_2_2 = (Ok (Fun r), σ2).
Proof.
  destruct (Eval_different_space_number (np := int_numpy) (df := vertex_dolfin) Inner np_inner
              [Terminal_Function f; ScalarValue (PyInt 2)] []
              [Fun f; Num (PyInt 2)] (PyInt 2) store_2_2 store_2_2)
    as [Hfails Hsame]; try reflexivity.
  { apply list_elem_of_further, list_elem_of_here. }
  split; [exact Hfails|].
  apply (Hsame Product np_multiply f [1; 2]%Z []); reflexivity.
Defined.

(** C4: the inner product of the vector Functions [u], on mesh A, and [w],
    on mesh B.  The two spaces have the same scalar element, so
    [common_sub_element] accepts them; nothing compares the meshes, and
    [Eval] returns a Function on the mesh of the last operand, mesh B. *)
Theorem Eval_Inner_on_two_meshes :
  mesh_id (mesh (function_space u)) ≠ mesh_id (mesh (function_space w))
  ∧ ufl_shape u = [2] ∧ ufl_shape w = [2]
  ∧ common_sub_element [function_space u; function_space w] = Ok (Some P1)
  ∧ ∃ r σ1,
      Eval (Operator Inner [Terminal_Function u; Terminal_Function w] [])
        store_4_4 = (Ok (Fun r), σ1)
      ∧ mesh (function_space r) = mesh_B.
Proof.
  split; [simpl; lia|]. split; [reflexivity|]. split; [reflexivity|].
  split; [reflexivity|].
  eexists _, _. split; [vm_compute; reflexivity|reflexivity].
Qed.

(** C9: the logical values of the dot product of [u] and [v].  The first
    logical value of [u] should be its coefficients at the dofs 0 and 1,
    that is (1, 2); the kernel is given (10, 20), the coefficients of [v],
    for both operands, and the result holds v.v instead of u.v. *)
Theorem Eval_Dot_reads_last_operand :
  (x ← getitem [1; 2; 3; 4]%Z (Fancy [0; 1]); reshape (ufl_shape u) x)
  = Ok (mk_ndarray [2] [1; 2]%Z)
  ∧ ∃ env gens,
      loop (mk_locals None None None []) [Fun u; Fun v] store_4_4
      = (Ok env, store_4_4)
      ∧ izip_next env (get_args env)
        = Yield ([mk_ndarray [2] [10; 20]%Z; mk_ndarray [2] [10; 20]%Z], gens)
      ∧ (Eval (Operator Dot [Terminal_Function u; Terminal_Function v] [])
           store_4_4).2 !! 3 = Some [500; 2500]%Z.
Proof.
  split; [reflexivity|].
  eexists _, _. repeat split; vm_compute; reflexivity.
Qed.

(** ** The further properties on the same meshes and Functions *)

Lemma Eval_binary_of_Functions_witness :
  stored store_2_2 f [1; 2]%Z
  ∧ stored store_2_2 f2 [10; 20]%Z
  ∧ Eval (Operator Sum [Terminal_Function f; Terminal_Function f2] [])
      store_2_2
    = (Ok (Fun (mk_function (function_space f) 2)),
       store_2_2 ++ [[11; 22]%Z]).
Proof.
  assert (stored store_2_2 f [1; 2]%Z) as Hf by (split; reflexivity).
  assert (stored store_2_2 f2 [10; 20]%Z) as Hf2 by (split; reflexivity).
  split; [exact Hf|]. split; [exact Hf2|].
  exact (Eval_binary_of_Functions (np := int_numpy) (df := vertex_dolfin)
           Sum np_add f f2 _ _ [] store_2_2 eq_refl eq_refl Hf Hf2).
Defined.

Lemma Eval_unary_of_Function_witness :
  stored store_2_2 f [1; 2]%Z
  ∧ Eval (Operator Abs [Terminal_Function f] []) store_2_2
    = (Ok (Fun (mk_function (function_space f) 2)),
       store_2_2 ++ [[1; 2]%Z]).
Proof.
  assert (stored store_2_2 f [1; 2]%Z) as Hf by (split; reflexivity).
  split; [exact Hf|].
  exact (Eval_unary_of_Function (np := int_numpy) (df := vertex_dolfin)
           Abs np_abs f _ [] store_2_2 eq_refl Hf).
Defined.

Lemma Eval_binary_with_number_witness :
  stored store_2_2 f2 [10; 20]%Z
  ∧ Eval (Operator Division [ScalarValue (PyInt 40); Terminal_Function f2] [])
      store_2_2
    = (Ok (Fun (mk_function (function_space f2) 2)),
       store_2_2 ++ [[4; 2]%Z])
  ∧ Eval (Operator Division [Terminal_Function f2; ScalarValue (PyInt 40)] [])
      store_2_2
    = (Ok (Fun (mk_function (function_space f2) 2)),
       store_2_2 ++ [[0; 0]%Z]).
Proof.
  assert (stored store_2_2 f2 [10; 20]%Z) as Hf2 by (split; reflexivity).
  split; [exact Hf2|].
  exact (Eval_binary_with_number (np := int_numpy) (df := vertex_dolfin)
           Division np_divide (PyInt 40) f2 _ [] store_2_2 eq_refl Hf2).
Defined.

Lemma Eval_operands_first_witness :
  map_M Eval [Operator Product [ScalarValue (PyInt 3); Terminal_Function f] [];
              Terminal_Function f2] store_2_2
  = (Ok [Fun (mk_function (function_space f) 2); Fun f2],
     store_2_2 ++ [[3; 6]%Z])
  ∧ Eval (Operator Sum
            [Operator Product [ScalarValue (PyInt 3); Terminal_Function f] [];
             Terminal_Function f2] []) store_2_2
    = Eval (Operator Sum
              (as_expr <$> [Fun (mk_function (function_space f) 2); Fun f2]) [])
        (store_2_2 ++ [[3; 6]%Z]).
Proof.
  assert (map_M Eval
            [Operator Product [ScalarValue (PyInt 3); Terminal_Function f] [];
             Terminal_Function f2] store_2_2
          = (Ok [Fun (mk_function (function_space f) 2); Fun f2],
             store_2_2 ++ [[3; 6]%Z])) as Hops by reflexivity.
  split; [exact Hops|].
  exact (Eval_operands_first (np := int_numpy) (df := vertex_dolfin)
           Sum _ [] _ _ _ Hops).
Defined.

Lemma Eval_operand_raises_witness :
  map_M Eval [Terminal_Function f] store_2_3 = (Ok [Fun f], store_2_3)
  ∧ Eval (Operator Sum [Terminal_Function f; Terminal_Function h] [])
      store_2_3 = (Raised broadcast_error, store_2_3)
  ∧ Eval (Operator Inner
            ([Terminal_Function f]
             ++ Operator Sum [Terminal_Function f; Terminal_Function h] []
             :: [ScalarValue (PyInt 1)]) []) store_2_3
    = (Raised broadcast_error, store_2_3).
Proof.
  assert (map_M Eval [Terminal_Function f] store_2_3
          = (Ok [Fun f], store_2_3)) as Hpre by reflexivity.
  assert (Eval (Operator Sum [Terminal_Function f; Terminal_Function h] [])
            store_2_3 = (Raised broadcast_error, store_2_3)) as He
    by reflexivity.
  split; [exact Hpre|]. split; [exact He|].
  exact (Eval_operand_raises (np := int_numpy) (df := vertex_dolfin)
           Inner _ [ScalarValue (PyInt 1)] _ [] _ _ _ _ _ Hpre He).
Defined.

Lemma Eval_operator_result_fresh_witness :
  Eval (Operator Dot [Terminal_Function u; Terminal_Function v] []) store_4_4
  = (Ok (Fun (mk_function (mk_space mesh_A P1) 3)),
     store_4_4 ++ [[0; 0]; [500; 2500]]%Z)
  ∧ ∃ r c, Fun (mk_function (mk_space mesh_A P1) 3) = Fun r
           ∧ length store_4_4 ≤ vector r
           ∧ store_4_4 !! vector r = None
           ∧ stored (store_4_4 ++ [[0; 0]; [500; 2500]]%Z) r c.
Proof.
  assert (Eval (Operator Dot [Terminal_Function u; Terminal_Function v] [])
            store_4_4
          = (Ok (Fun (mk_function (mk_space mesh_A P1) 3)),
             store_4_4 ++ [[0; 0]; [500; 2500]]%Z)) as HEval
    by (vm_compute; reflexivity).
  split; [exact HEval|].
  exact (Eval_operator_result_fresh (np := int_numpy) (df := vertex_dolfin)
           Dot _ [] _ _ _ HEval).
Defined.

Lemma Eval_allocations_witness :
  Eval (Operator Sum
          [Operator Dot [Terminal_Function u; Terminal_Function v] [];
           ScalarValue (PyInt 1)] []) store_4_4
  = (Ok (Fun (mk_function (mk_space mesh_A P1) 4)),
     store_4_4 ++ [[0; 0]; [500; 2500]; [501; 2501]]%Z)
  ∧ length (store_4_4 ++ [[0; 0]; [500; 2500]; [501; 2501]]%Z)
    = length store_4_4
      + allocations
          (Operator Sum
             [Operator Dot [Terminal_Function u; Terminal_Function v] [];
              ScalarValue (PyInt 1)] []).
Proof.
  assert (Eval (Operator Sum
                  [Operator Dot [Terminal_Function u; Terminal_Function v] [];
                   ScalarValue (PyInt 1)] []) store_4_4
          = (Ok (Fun (mk_function (mk_space mesh_A P1) 4)),
             store_4_4 ++ [[0; 0]; [500; 2500]; [501; 2501]]%Z)) as HEval
    by (vm_compute; reflexivity).
  split; [exact HEval|].
  exact (Eval_allocations (np := int_numpy) (df := vertex_dolfin) _ _ _ _ HEval).
Defined.

Lemma Eval_numbers_only_witness :
  map_M Eval [ScalarValue (PyInt 1); Terminal_number (PyInt 2)] store_2_2
  = (Ok [Num (PyInt 1); Num (PyInt 2)], store_2_2)
  ∧ Functions [Num (PyInt 1); Num (PyInt 2)] = []
  ∧ ∃ e, Eval (Operator Sum [ScalarValue (PyInt 1); Terminal_number (PyInt 2)] [])
           store_2_2 = (Raised e, store_2_2).
Proof.
  assert (map_M Eval [ScalarValue (PyInt 1); Terminal_number (PyInt 2)]
            store_2_2
          = (Ok [Num (PyInt 1); Num (PyInt 2)], store_2_2)) as Hops
    by reflexivity.
  assert (Functions (np := int_numpy) (df := vertex_dolfin)
            [Num (PyInt 1); Num (PyInt 2)] = []) as Hnone by reflexivity.
  split; [exact Hops|]. split; [exact Hnone|].
  exact (Eval_numbers_only (np := int_numpy) (df := vertex_dolfin)
           Sum _ [] _ _ _ Hops Hnone).
Defined.

Lemma common_sub_element_ignores_meshes_witness :
  ufl_element <$> [function_space f; function_space u]
  = ufl_element <$> [function_space g; function_space u]
  ∧ common_sub_element [function_space f; function_space u]
    = common_sub_element [function_space g; function_space u].
Proof.
  assert (ufl_element <$> [function_space f; function_space u]
          = ufl_element <$> [function_space g; function_space u]) as Helms
    by reflexivity.
  split; [exact Helms|].
  exact (common_sub_element_ignores_meshes (df := vertex_dolfin) _ _ Helms).
Defined.

Lemma make_space_reconciled_witness :
  sub_elements P1 = []
  ∧ geometric_dimension P1 ≠ 0
  ∧ make_space P1 [2; 2] mesh_A = Ok (mk_space mesh_A (TensorElement P1 [2; 2]))
  ∧ common_sub_element [mk_space mesh_A (TensorElement P1 [2; 2])]
    = Ok (Some P1)
  ∧ ∃ indices,
      numpy_op_indices (mk_space mesh_A (TensorElement P1 [2; 2])) [2; 2]
      = Ok indices.
Proof.
  assert (sub_elements P1 = []) as Hsub by reflexivity.
  assert (geometric_dimension P1 ≠ 0) as Hg by (intros Hz; discriminate Hz).
  assert (make_space P1 [2; 2] mesh_A
          = Ok (mk_space mesh_A (TensorElement P1 [2; 2]))) as Hmake
    by reflexivity.
  split; [exact Hsub|]. split; [exact Hg|]. split; [exact Hmake|].
  exact (make_space_reconciled (df := vertex_dolfin) _ _ _ _ Hsub Hg Hmake).
Defined.

Lemma numpy_op_indices_components_witness :
  numpy_op_indices (function_space u) [2] = Ok [Fancy [0; 1]; Fancy [2; 3]]
  ∧ num_sub_spaces (function_space u) ≠ 0
  ∧ (∀ k idx, [Fancy [0; 1]; Fancy [2; 3]] !! k = Some (Fancy idx)
              ↔ component_dofs (function_space u) k idx)
  ∧ (∀ k i, [Fancy [0; 1]; Fancy [2; 3]] !! k = Some i →
       ∃ idx, i = Fancy idx ∧ length idx = num_sub_spaces (function_space u)).
Proof.
  assert (numpy_op_indices (function_space u) [2]
          = Ok [Fancy [0; 1]; Fancy [2; 3]]) as Hind by reflexivity.
  assert (num_sub_spaces (function_space u) ≠ 0) as Hn
    by (intros Hz; discriminate Hz).
  split; [exact Hind|]. split; [exact Hn|].
  exact (numpy_op_indices_components (df := vertex_dolfin) _ _ _ Hind Hn).
Defined.

Lemma Eval_same_space_result_space_witness :
  map_M Eval [Terminal_Function f; Terminal_Function f2] store_2_2
  = (Ok [Fun f; Fun f2], store_2_2)
  ∧ Eval (Operator Sum [Terminal_Function f; Terminal_Function f2] [])
      store_2_2
    = (Ok (Fun (mk_function (function_space f) 2)), store_2_2 ++ [[11; 22]%Z])
  ∧ (∃ f0 fs, Functions [Fun f; Fun f2] = f0 :: fs
              ∧ function_space (mk_function (function_space f) 2)
                = function_space f0)
  ∧ ∀ g0, g0 ∈ Functions [Fun f; Fun f2] →
      ufl_element (function_space g0)
      = ufl_element (function_space (mk_function (function_space f) 2))
      ∧ mesh_id (mesh (function_space g0))
        = mesh_id (mesh (function_space (mk_function (function_space f) 2))).
Proof.
  assert (map_M Eval [Terminal_Function f; Terminal_Function f2] store_2_2
          = (Ok [Fun f; Fun f2], store_2_2)) as Hops by reflexivity.
  assert (Eval (Operator Sum [Terminal_Function f; Terminal_Function f2] [])
            store_2_2
          = (Ok (Fun (mk_function (function_space f) 2)),
             store_2_2 ++ [[11; 22]%Z])) as HEval by reflexivity.
  split; [exact Hops|]. split; [exact HEval|].
  exact (Eval_same_space_result_space (np := int_numpy) (df := vertex_dolfin)
           Sum _ [] _ _ _ _ _ eq_refl Hops HEval).
Defined.

Lemma Eval_different_space_result_space_witness :
  map_M Eval [Terminal_Function f; Terminal_Function g] store_2_2
  = (Ok [Fun f; Fun g], store_2_2)
  ∧ Eval (Operator Inner [Terminal_Function f; Terminal_Function g] [])
      store_2_2
    = (Ok (Fun (mk_function (mk_space mesh_B P1) 3)),
       store_2_2 ++ [[0; 0]; [100; 400]]%Z)
  ∧ ∃ g0 e,
      list.last [Fun f; Fun g] = Some (Fun g0)
      ∧ make_space e [] (mesh (function_space g0))
        = Ok (function_space (mk_function (mk_space mesh_B P1) 3))
      ∧ Forall (λ v, ∃ f0, v = Fun f0 ∧ scalar_element (function_space f0) e)
          [Fun f; Fun g].
Proof.
  assert (map_M Eval [Terminal_Function f; Terminal_Function g] store_2_2
          = (Ok [Fun f; Fun g], store_2_2)) as Hops by reflexivity.
  assert (Eval (Operator Inner [Terminal_Function f; Terminal_Function g] [])
            store_2_2
          = (Ok (Fun (mk_function (mk_space mesh_B P1) 3)),
             store_2_2 ++ [[0; 0]; [100; 400]]%Z)) as HEval
    by (vm_compute; reflexivity).
  split; [exact Hops|]. split; [exact HEval|].
  exact (Eval_different_space_result_space (np := int_numpy)
           (df := vertex_dolfin) Inner np_inner _ [] _ _ _ _ _
           eq_refl Hops HEval).
Defined.

Lemma Eval_pointwise_witness :
  in_space (function_space f) store_2_2
    (Operator Sum
       [Operator Product [ScalarValue (PyInt 3); Terminal_Function f] [];
        Operator Abs [Terminal_Function f2] []] [])
  ∧ ∃ r σ1 c,
      Eval (Operator Sum
              [Operator Product [ScalarValue (PyInt 3); Terminal_Function f] [];
               Operator Abs [Terminal_Function f2] []] []) store_2_2
      = (Ok (Fun r), σ1)
      ∧ function_space r = function_space f
      ∧ stored σ1 r c
      ∧ ∀ i, c !! i
             = pointwise store_2_2 i
                 (Operator Sum
                    [Operator Product
                       [ScalarValue (PyInt 3); Terminal_Function f] [];
                     Operator Abs [Terminal_Function f2] []] []).
Proof.
  assert (stored store_2_2 f [1; 2]%Z) as Hf by (split; reflexivity).
  assert (stored store_2_2 f2 [10; 20]%Z) as Hf2 by (split; reflexivity).
  assert (in_space (function_space f) store_2_2
            (Operator Sum
               [Operator Product [ScalarValue (PyInt 3); Terminal_Function f] [];
                Operator Abs [Terminal_Function f2] []] [])) as Hin.
  { eapply in_space_binary; [reflexivity| |].
    - eapply in_space_number_left; [reflexivity|right; reflexivity|].
      eapply in_space_Function; [reflexivity|exact Hf].
    - eapply in_space_unary; [reflexivity|].
      eapply in_space_Function; [reflexivity|exact Hf2]. }
  split; [exact Hin|].
  exact (Eval_pointwise (np := int_numpy) (df := vertex_dolfin) _ _ _ Hin).
Defined.

Lemma Eval_different_space_reads_last_witness :
  Forall2 (λ u1 u2 : Function, function_space u1 = function_space u2) [u] [v]
  ∧ Forall (λ u1 : Function, is_Some (store_4_4 !! vector u1)) [u]
  ∧ Forall (λ u1 : Function, is_Some (store_4_4 !! vector u1)) [v]
  ∧ Eval (Operator Dot (Terminal_Function <$> ([u] ++ [v])) []) store_4_4
    = Eval (Operator Dot (Terminal_Function <$> ([v] ++ [v])) []) store_4_4.
Proof.
  assert (Forall2 (λ u1 u2 : Function, function_space u1 = function_space u2)
            [u] [v]) as Hfs by (repeat constructor).
  assert (Forall (λ u1 : Function, is_Some (store_4_4 !! vector u1)) [u])
    as Hu by (repeat constructor; eexists; reflexivity).
  assert (Forall (λ u1 : Function, is_Some (store_4_4 !! vector u1)) [v])
    as Hv by (repeat constructor; eexists; reflexivity).
  split; [exact Hfs|]. split; [exact Hu|]. split; [exact Hv|].
  exact (Eval_different_space_reads_last (np := int_numpy)
           (df := vertex_dolfin) Dot np_dot [u] [v] v [] store_4_4
           eq_refl Hfs Hu Hv).
Defined.

Lemma Eval_different_space_values_witness :
  map_M Eval [Terminal_Function f; Terminal_Function f2] store_2_2
  = (Ok [Fun f; Fun f2], store_2_2)
  ∧ Eval (Operator Inner [Terminal_Function f; Terminal_Function f2] [])
      store_2_2
    = (Ok (Fun (mk_function (mk_space mesh_A P1) 3)),
       store_2_2 ++ [[0; 0]; [100; 400]]%Z)
  ∧ ∃ env dofs1 res,
      loop (mk_locals None None None []) [Fun f; Fun f2] store_2_2
      = (Ok env, store_2_2)
      ∧ numpy_op_indices
          (function_space (mk_function (mk_space mesh_A P1) 3)) []
        = Ok dofs1
      ∧ (store_2_2 ++ [[0; 0]; [100; 400]]%Z) !! 3 = Some res
      ∧ (∀ i, i ∉ dofs1 ≫= targets → i < length res →
              res !! i = Some (of_int 0))
      ∧ (NoDup (dofs1 ≫= targets) → ∀ k dof,
           dofs1 !! k = Some dof →
           Forall (λ g0, is_Some (pending g0 !! k)) (get_args env) →
           ∃ xs y,
             yields env (get_args env) k xs
             ∧ kernel np_inner xs = Ok y
             ∧ ∀ i w,
                 (i, w) ∈ assigned dof
                            ((if bool_decide (@nil nat ≠ []) then flatten
                              else Datatypes.id) y) →
                 res !! i = Some w).
Proof.
  assert (map_M Eval [Terminal_Function f; Terminal_Function f2] store_2_2
          = (Ok [Fun f; Fun f2], store_2_2)) as Hops by reflexivity.
  assert (Eval (Operator Inner [Terminal_Function f; Terminal_Function f2] [])
            store_2_2
          = (Ok (Fun (mk_function (mk_space mesh_A P1) 3)),
             store_2_2 ++ [[0; 0]; [100; 400]]%Z)) as HEval
    by (vm_compute; reflexivity).
  split; [exact Hops|]. split; [exact HEval|].
  exact (Eval_different_space_values (np := int_numpy) (df := vertex_dolfin)
           Inner np_inner _ [] _ _ _ _ _ eq_refl Hops HEval).
Defined.

Module Tensor_witness.
Import Tensor_example.
#[local] Existing Instance matrix_numpy | 0.

Lemma Eval_unary_different_space_witness :
  store_8 !! vector t = Some [1; 2; 3; 4; 5; 6; 7; 8]%Z
  ∧ Eval (Operator Trace [Terminal_Function t] []) store_8
    = (Ok (Fun (mk_function (mk_space mesh_A P1) 2)),
       store_8 ++ [[0; 0]; [5; 13]]%Z)
  ∧ ∃ indices dofs1 res,
      numpy_op_indices (function_space t) (ufl_shape t) = Ok indices
      ∧ numpy_op_indices
          (function_space (mk_function (mk_space mesh_A P1) 2)) []
        = Ok dofs1
      ∧ (store_8 ++ [[0; 0]; [5; 13]]%Z) !! 2 = Some res
      ∧ (NoDup (dofs1 ≫= targets) → ∀ k dof i,
           dofs1 !! k = Some dof →
           indices !! k = Some i →
           ∃ x y,
             (if bool_decide (ufl_shape t ≠ [])
              then x0 ← getitem [1; 2; 3; 4; 5; 6; 7; 8]%Z i;
                   reshape (ufl_shape t) x0
              else getitem [1; 2; 3; 4; 5; 6; 7; 8]%Z i) = Ok x
             ∧ kernel np_trace [x] = Ok y
             ∧ ∀ p w,
                 (p, w) ∈ assigned dof
                            ((if bool_decide (@nil nat ≠ []) then flatten
                              else Datatypes.id) y) →
                 res !! p = Some w).
Proof.
  assert (store_8 !! vector t = Some [1; 2; 3; 4; 5; 6; 7; 8]%Z) as Ht
    by reflexivity.
  assert (Eval (Operator Trace [Terminal_Function t] []) store_8
          = (Ok (Fun (mk_function (mk_space mesh_A P1) 2)),
             store_8 ++ [[0; 0]; [5; 13]]%Z)) as HEval
    by (vm_compute; reflexivity).
  split; [exact Ht|]. split; [exact HEval|].
  exact (Eval_unary_different_space (np := matrix_numpy) (df := vertex_dolfin)
           Trace np_trace t _ [] _ _ _ eq_refl Ht HEval).
Defined.

End Tensor_witness.

Lemma Eval_rank_3_never_returns_witness :
  3 ≤ length [2; 2; 2]
  ∧ ∃ e σ1,
      Eval (Operator Outer [Terminal_Function u; Terminal_Function v] [2; 2; 2])
        store_4_4 = (Raised e, σ1).
Proof.
  assert (3 ≤ length [2; 2; 2]) as Hrank by (simpl; lia).
  split; [exact Hrank|].
  exact (Eval_rank_3_never_returns (np := int_numpy) (df := vertex_dolfin)
           Outer np_outer _ [2; 2; 2] store_4_4 eq_refl Hrank).
Defined.
